(** * Pothole mapping dashboard (App.jsx): a shallow embedding

    The dashboard keeps its state in React hooks and delegates geometry to
    turf, rendering to Leaflet and Unicode handling to the JavaScript
    runtime.  The embedding follows the source function by function:

    - [JS]        the JavaScript number operations the source relies on
                  (32-bit integer operators, [Math.floor], array indexing by a
                  number, the time value of a [Date]);
    - [Text]      strings as sequences of UTF-16 code units and [normalize];
    - [Generator] [mulberry32], [withinMeters], [existsWithinMeters] and
                  [buildInitialPotholes];
    - [Filter]    [pointOnAnyPolygon], [dateInRange] and [filteredPotholes];
    - [App]       the component state, its event handlers and [handleSearch].

    Library functions (turf, Leaflet, [Number], [toLowerCase], Unicode
    normalisation, the local calendar of [Date]) are parameters of the
    sections that use them. *)

From Stdlib Require Import ZArith Floats Uint63 Ascii String.
From stdpp Require Import base option list gmap sets.

Set Warnings "-inexact-float".

(** ** JavaScript numbers *)

Module JS.

Local Open Scope Z_scope.

(** [ToInt32] and [ToUint32] of an integral number. *)
Definition ToInt32 (z : Z) : Z := (z + 2147483648) mod 4294967296 - 2147483648.
Definition ToUint32 (z : Z) : Z := z mod 4294967296.

(** [a ^ b], [a | b], [a >>> n] and [Math.imul(a, b)]. *)
Definition xor (a b : Z) : Z := Z.lxor (ToInt32 a) (ToInt32 b).
Definition or (a b : Z) : Z := Z.lor (ToInt32 a) (ToInt32 b).
Definition ushr (a n : Z) : Z := Z.shiftr (ToUint32 a) (ToUint32 n mod 32).
Definition imul (a b : Z) : Z := ToInt32 (ToUint32 a * ToUint32 b).

(** An integer of magnitude below 2^63 as a number (exact below 2^53). *)
Definition float_of_Z (z : Z) : float :=
  if z <? 0 then (- of_uint63 (Uint63.of_Z (- z)))%float
  else of_uint63 (Uint63.of_Z z).

Definition signed (s : bool) (m : positive) : Z :=
  if s then Z.neg m else Z.pos m.

(** [Math.floor(x)].  A finite number with a non-negative exponent is an
    integer already; otherwise its magnitude is below 2^52 and the floor is
    computed on the mantissa. *)
Definition Math_floor (x : float) : float :=
  match Prim2SF x with
  | S754_finite s m e =>
      if 0 <=? e then x else float_of_Z (Z.shiftl (signed s m) e)
  | _ => x
  end.

(** The array index a number denotes when it is used as a property key:
    a non-negative integer, or nothing. *)
Definition array_index (x : float) : option nat :=
  match Prim2SF x with
  | S754_zero _ => Some 0%nat
  | S754_finite false m e =>
      if 0 <=? e then Some (Z.to_nat (Z.shiftl (Z.pos m) e))
      else if Z.pos m mod 2 ^ (- e) =? 0
           then Some (Z.to_nat (Z.shiftl (Z.pos m) e))
           else None
  | _ => None
  end.

(** [arr[x]]: [None] stands for [undefined]. *)
Definition array_get {A} (arr : list A) (x : float) : option A :=
  i ← array_index x; arr !! i.

(** The time value of a [Date]: milliseconds since the epoch, or [None] for
    an invalid date (time value NaN). *)
Definition Date : Type := option Z.

(** [new Date(t)] for a number [t]: TimeClip. *)
Definition TimeClip (t : float) : Date :=
  match Prim2SF t with
  | S754_zero _ => Some 0
  | S754_finite s m e =>
      let z := Z.shiftl (Z.pos m) e in
      if 8640000000000000 <? z then None else Some (if s then - z else z)
  | _ => None
  end.

(** [a >= b] on dates (both operands are converted to their time values;
    a comparison with NaN is false). *)
Definition Date_ge (a b : Date) : bool :=
  match a, b with
  | Some x, Some y => y <=? x
  | _, _ => false
  end.

Definition isNaN (x : float) : bool := negb (x =? x)%float.

End JS.

(** ** Strings *)

Module Text.

(** A string is its sequence of UTF-16 code units. *)
Definition jsstring : Type := list N.

Definition str (s : string) : jsstring :=
  (λ a, N_of_ascii a) <$> list_ascii_of_string s.

(** The code units [String.prototype.trim] removes: WhiteSpace and
    LineTerminator. *)
Definition isWhiteSpace (c : N) : bool :=
  bool_decide (c ∈ [0x9; 0xA; 0xB; 0xC; 0xD; 0x20; 0xA0; 0x1680; 0x2028;
                    0x2029; 0x202F; 0x205F; 0x3000; 0xFEFF]%N)
  || (0x2000 <=? c)%N && (c <=? 0x200A)%N.

Fixpoint trimStart (s : jsstring) : jsstring :=
  match s with
  | c :: s' => if isWhiteSpace c then trimStart s' else s
  | [] => []
  end.

Definition trimEnd (s : jsstring) : jsstring := reverse (trimStart (reverse s)).
Definition trim (s : jsstring) : jsstring := trimEnd (trimStart s).

(** [s.replace(/[\u0300-\u036f]/g, '')]. *)
Definition isCombiningMark (c : N) : bool := (0x300 <=? c)%N && (c <=? 0x36f)%N.
Definition stripMarks (s : jsstring) : jsstring :=
  filter (λ c, isCombiningMark c = false) s.

Fixpoint startsWith (s q : jsstring) : bool :=
  match q, s with
  | [], _ => true
  | c :: q', d :: s' => bool_decide (c = d) && startsWith s' q'
  | _ :: _, [] => false
  end.

(** [s.includes(q)]. *)
Fixpoint includes (s q : jsstring) : bool :=
  startsWith s q || match s with
                    | [] => false
                    | _ :: s' => includes s' q
                    end.

Section Normalize.

(** [String.prototype.toLowerCase] and [String.prototype.normalize('NFKD')]
    are the runtime's. *)
Variables toLowerCase nfkd : jsstring → jsstring.

(** [normalize(str)] for a string [str] ([String(str || '')] is [str]). *)
Definition normalize (s : jsstring) : jsstring :=
  trim (stripMarks (nfkd (toLowerCase s))).

End Normalize.

End Text.
Export Text.

(** ** The synthetic record generator *)

Module Generator.

Inductive Severity := critical | high | medium | low.
Inductive Status := pending | inProgress | repaired.

#[global] Instance Severity_eq_dec : EqDecision Severity.
Proof. solve_decision. Defined.
#[global] Instance Status_eq_dec : EqDecision Status.
Proof. solve_decision. Defined.

Definition STATUSES : list Status := [pending; inProgress; repaired].
Definition SEVERITIES : list Severity := [critical; high; medium; low].

Definition severityColors (s : Severity) : jsstring :=
  match s with
  | critical => str "#dc2626"
  | high => str "#ea580c"
  | medium => str "#f59e0b"
  | low => str "#84cc16"
  end.

Record Pothole := mkPothole {
  id : nat;
  lat : float;
  lng : float;
  severity : Severity;
  status : Status;
  color : jsstring;
  size : float;
  detected : JS.Date;
}.

Definition set_id (i : nat) (p : Pothole) : Pothole :=
  mkPothole i (lat p) (lng p) (severity p) (status p) (color p) (size p)
    (detected p).

(** *** mulberry32

    The closure variable [seed] is a number that grows by 0x6d2b79f5 on
    every call (it is never wrapped); the 32-bit operators wrap their
    operands.  [mulberry32 seed] is one call of the returned function: the
    32-bit result before the division, and the new value of [seed]. *)
Definition mulberry32 (seed : Z) : Z * Z :=
  let seed := (seed + 0x6d2b79f5)%Z in
  let t := seed in
  let t := JS.imul (JS.xor t (JS.ushr t 15)) (JS.or t 1) in
  let t := JS.xor t (t + JS.imul (JS.xor t (JS.ushr t 7)) (JS.or t 61))%Z in
  (JS.ushr (JS.xor t (JS.ushr t 14)) 0, seed).

(** Computations that call [rand()]: the state is the closure's [seed]. *)
Definition Rand (A : Type) : Type := Z → A * Z.

Definition ret {A} (a : A) : Rand A := λ s, (a, s).
Definition bind {A B} (c : Rand A) (k : A → Rand B) : Rand B :=
  λ s, let '(a, s') := c s in k a s'.

Notation "x <- c ;; k" := (bind c (λ x, k))
  (at level 100, c at next level, right associativity).

Definition rand : Rand float :=
  λ seed, let '(u, seed') := mulberry32 seed in
          ((JS.float_of_Z u / 4294967296)%float, seed').

Definition torontoCenter_lat : float := 43.6532%float.
Definition torontoCenter_lng : float := (-79.3832)%float.
Definition targetCount : nat := 80.
Definition maxAttempts : nat := targetCount * 50.

(** One candidate, as the loop body builds it: six calls of [rand()] in
    source order.  [now] is the value [Date.now()] returns in this
    iteration.  The result is [None] when an array lookup is [undefined]. *)
Definition candidate (now : Z) (attempts : nat) : Rand (option Pothole) :=
  r1 <- rand ;;
  r2 <- rand ;;
  r3 <- rand ;;
  r4 <- rand ;;
  r5 <- rand ;;
  r6 <- rand ;;
  ret (severity ← JS.array_get SEVERITIES (JS.Math_floor (r1 * 4)%float);
       status ← JS.array_get STATUSES (JS.Math_floor (r2 * 3)%float);
       let size := (JS.Math_floor (r3 * 40) + 10)%float in
       let detected :=
         JS.TimeClip (JS.float_of_Z now - r4 * 7 * 24 * 60 * 60 * 1000)%float in
       Some {| id := attempts;
               lat := (torontoCenter_lat + (r5 - 0.5) * 0.15)%float;
               lng := (torontoCenter_lng + (r6 - 0.5) * 0.2)%float;
               severity := severity;
               status := status;
               color := severityColors severity;
               size := size;
               detected := detected |}).

Section Turf.

(** [turf.distance(turf.point([lng1, lat1]), turf.point([lng2, lat2]),
    {units: 'kilometers'})]. *)
Variable turf_distance : float * float → float * float → float.

Definition withinMeters (a b : Pothole) (meters : float) : bool :=
  let dKm := turf_distance (lng a, lat a) (lng b, lat b) in
  (dKm * 1000 <? meters)%float.

Definition existsWithinMeters (list : list Pothole) (candidate : Pothole)
    (meters : float) : bool :=
  existsb (λ p, withinMeters p candidate meters) list.

(** The variables of the loop. *)
Record Loop := mkLoop {
  seed : Z;
  attempts : nat;
  items : list Pothole;
}.

(** [Date_now k] is what [Date.now()] returns in the iteration that sets
    [attempts] to [k]. *)
Variable Date_now : nat → Z.

Definition loop_test (st : Loop) : bool :=
  bool_decide (length (items st) < targetCount)
  && bool_decide (attempts st < maxAttempts).

Definition loop_body (st : Loop) : option Loop :=
  let attempts := S (attempts st) in
  let '(c, seed) := candidate (Date_now attempts) attempts (seed st) in
  cand ← c;
  Some (mkLoop seed attempts
          (if negb (existsWithinMeters (items st) cand 10)
           then items st ++ [cand] else items st)).

(** The [while] loop; [None] when the fuel runs out or a candidate is not
    a record. *)
Fixpoint while_loop (fuel : nat) (st : Loop) : option Loop :=
  match fuel with
  | O => None
  | S fuel =>
      if loop_test st then st' ← loop_body st; while_loop fuel st'
      else Some st
  end.

Definition generate : option Loop :=
  while_loop (S maxAttempts) (mkLoop 12345 0 []).

Definition buildInitialPotholes : option (list Pothole) :=
  st ← generate; Some (imap set_id (items st)).

End Turf.

End Generator.

(** ** Boundary features and the boundary index *)

Module Boundary.

(** A JSON value as the source inspects it: its truthiness, and its
    conversion to a string.  Objects and arrays are not looked into. *)
Inductive JsVal :=
  | JUndefined
  | JNull
  | JBool (b : bool)
  | JNumber (x : float)
  | JString (s : jsstring)
  | JObject.

Definition truthy (v : JsVal) : bool :=
  match v with
  | JUndefined | JNull => false
  | JBool b => b
  | JNumber x => negb ((x =? 0)%float || JS.isNaN x)
  | JString s => negb (bool_decide (s = []))
  | JObject => true
  end.

(** Polygon and MultiPolygon coordinates, in longitude/latitude order. *)
Definition Geometry : Type := list (list (list (float * float))).

Record Feature := mkFeature {
  properties : option (gmap jsstring JsVal);
  fid : JsVal;
  geometry : Geometry;
}.

(** The value [useNeighborhoods] holds once it is not [null]: a
    FeatureCollection, or some other GeoJSON object (which has no
    [features]). *)
Inductive GeoJSON :=
  | FeatureCollection (features : list Feature)
  | OtherGeoJSON (f : Feature).

Definition keys : list jsstring :=
  str <$> ["name"; "Name"; "NAME"; "AREA_NAME"; "AREA"; "NEIGHBORHOOD";
           "NEIGHBOURHOOD"; "HOOD"; "NBRHD"; "ward"; "WARD"]%string.

Section Names.

(** [String(v)] for a value that is not a string. *)
Variable ToString : JsVal → jsstring.

Definition String_ (v : JsVal) : jsstring :=
  match v with
  | JString s => s
  | _ => ToString v
  end.

(** [props[k]]; a missing key reads [undefined]. *)
Definition prop (props : gmap jsstring JsVal) (k : jsstring) : JsVal :=
  default JUndefined (props !! k).

(** [f.id ?? ''] *)
Definition id_or_empty (v : JsVal) : JsVal :=
  match v with
  | JUndefined | JNull => JString []
  | _ => v
  end.

Definition featureName (f : Feature) : jsstring :=
  let props := default ∅ (properties f) in
  match list_find (λ k, truthy (prop props k) = true) keys with
  | Some (_, k) => String_ (prop props k)
  | None => trim (str "Area " ++ String_ (id_or_empty (fid f)))
  end.

Variables toLowerCase nfkd : jsstring → jsstring.

Record IndexEntry := mkEntry {
  idx : nat;
  name : jsstring;
}.

(** [neighborhoodIndex]: empty unless the collection has a non-empty
    [features] array. *)
Definition neighborhoodIndex (fc : option GeoJSON) : list IndexEntry :=
  match fc with
  | Some (FeatureCollection features) =>
      imap (λ idx f, mkEntry idx (normalize toLowerCase nfkd (featureName f)))
        features
  | _ => []
  end.

End Names.

End Boundary.

(** ** The spatial and attribute filter *)

Module Filter.
Import Generator Boundary.

Inductive DateRange :=
  | range_all | range_today | range_last7 | range_last30 | range_thisYear.

#[global] Instance DateRange_eq_dec : EqDecision DateRange.
Proof. solve_decision. Defined.

(** The applied criteria ([selectedFilters]). *)
Record SelectedFilters := mkSelected {
  dateRange : DateRange;
  severities : list Severity;
  statuses : list Status;
  sizeMin : jsstring;
  sizeMax : jsstring;
}.

(** A statement that completes normally, or throws. *)
Inductive Completion (A : Type) :=
  | Normal (a : A)
  | Throw.
Arguments Normal {A} a.
Arguments Throw {A}.

Section Runtime.

(** [turf.booleanPointInPolygon(turf.point([lng, lat]), f)]. *)
Variable booleanPointInPolygon : float * float → Feature → bool.

(** [Number(s)] for a string [s]. *)
Variable Number : jsstring → float.

(** The local calendar of [Date]:
    [new Date(now.getFullYear(), now.getMonth(), now.getDate())],
    [t = new Date(now); t.setDate(now.getDate() - n)], and
    [new Date(now.getFullYear(), 0, 1)], each from the time value of [now]. *)
Variable startOfDay : Z → JS.Date.
Variable daysBefore : Z → Z → JS.Date.
Variable startOfYear : Z → JS.Date.

Definition pointOnAnyPolygon (lat lng : float) (fc : option GeoJSON) : bool :=
  match fc with
  | None => true
  | Some (FeatureCollection features) =>
      existsb (λ f, booleanPointInPolygon (lng, lat) f) features
  | Some (OtherGeoJSON f) => booleanPointInPolygon (lng, lat) f
  end.

(** [dateInRange(date, rangeKey)]; [now] is the time value of the
    [new Date()] this call makes. *)
Definition dateInRange (date : JS.Date) (rangeKey : DateRange) (now : Z) : bool :=
  match rangeKey with
  | range_all => true
  | range_today => JS.Date_ge date (startOfDay now)
  | range_last7 => JS.Date_ge date (daysBefore now 7)
  | range_last30 => JS.Date_ge date (daysBefore now 30)
  | range_thisYear => JS.Date_ge date (startOfYear now)
  end.

(** [activeNeighborhoods]: reading [features] of a value that has none
    throws when the filter is applied to it. *)
Definition activeNeighborhoods (fc : option GeoJSON) (selected : gset nat)
    : Completion (option (list Feature)) :=
  match fc with
  | Some g =>
      if bool_decide (0 < base.size selected) then
        match g with
        | FeatureCollection features =>
            Normal (Some ((filter (λ '(idx, f), idx ∈ selected)
                             (imap pair features)).*2))
        | OtherGeoJSON _ => Throw
        end
      else Normal None
  | None => Normal None
  end.

(** The callback of [potholes.filter]: one early return per step. *)
Definition keep (filters : SelectedFilters) (fc : option GeoJSON)
    (active : option (list Feature)) (now : Z) (p : Pothole) : bool :=
  if negb (pointOnAnyPolygon (lat p) (lng p) fc) then false
  else if match active with
          | Some fs => negb (existsb (λ f, booleanPointInPolygon (lng p, lat p) f) fs)
          | None => false
          end then false
  else if negb (dateInRange (detected p) (dateRange filters) now) then false
  else if negb (bool_decide (severities filters = []))
          && negb (bool_decide (severity p ∈ severities filters)) then false
  else if negb (bool_decide (statuses filters = []))
          && negb (bool_decide (status p ∈ statuses filters)) then false
  else
    let min := Number (sizeMin filters) in
    let max := Number (sizeMax filters) in
    if negb (bool_decide (sizeMin filters = [])) && (size p <? min)%float
    then false
    else if negb (bool_decide (sizeMax filters = [])) && (max <? size p)%float
    then false
    else true.

(** [filteredPotholes].  [clock i] is the time value of the [new Date()]
    made while the record at position [i] is examined. *)
Definition filteredPotholes (potholes : list Pothole)
    (filters : SelectedFilters) (fc : option GeoJSON) (selected : gset nat)
    (clock : nat → Z) : Completion (list Pothole) :=
  match activeNeighborhoods fc selected with
  | Throw => Throw
  | Normal active =>
      Normal ((filter (λ '(i, p), keep filters fc active (clock i) p = true)
                 (imap pair potholes)).*2)
  end.

End Runtime.

End Filter.

(** ** The component: state, event handlers and the search resolver *)

Module App.
Import Generator Boundary Filter.

(** The draft criteria ([inputs]).  A JS [Set] is kept as the list of its
    elements in insertion order; [Array.from] of it is that list. *)
Record Inputs := mkInputs {
  in_dateRange : DateRange;
  in_severities : list Severity;
  in_statuses : list Status;
  in_sizeMin : jsstring;
  in_sizeMax : jsstring;
}.

(** What the Leaflet map shows, as far as the component commands it:
    [map.fitBounds(L.geoJSON(features[idx]).getBounds().pad(0.1))] and
    [map.flyTo([lat, lon], zoom)]. *)
Inductive MapView :=
  | InitialView
  | FitBounds (idx : nat)
  | FlyTo (lat lon : float) (zoom : Z).

(** The hooks of [PotholeMappingPlatform].  [map] is [None] while the
    state variable is [null]. *)
Record State := mkState {
  activeTab : jsstring;
  map : option MapView;
  searchQuery : jsstring;
  selectedNeighborhoodIds : gset nat;
  selectedFilters : SelectedFilters;
  inputs : Inputs;
  potholes : list Pothole;
  neighborhoodsFC : option GeoJSON;
}.

Definition setActiveTab (t : jsstring) (st : State) : State :=
  mkState t (map st) (searchQuery st) (selectedNeighborhoodIds st)
    (selectedFilters st) (inputs st) (potholes st) (neighborhoodsFC st).
Definition setMap (m : option MapView) (st : State) : State :=
  mkState (activeTab st) m (searchQuery st) (selectedNeighborhoodIds st)
    (selectedFilters st) (inputs st) (potholes st) (neighborhoodsFC st).
Definition setSearchQuery (q : jsstring) (st : State) : State :=
  mkState (activeTab st) (map st) q (selectedNeighborhoodIds st)
    (selectedFilters st) (inputs st) (potholes st) (neighborhoodsFC st).
Definition setSelectedNeighborhoodIds (s : gset nat) (st : State) : State :=
  mkState (activeTab st) (map st) (searchQuery st) s
    (selectedFilters st) (inputs st) (potholes st) (neighborhoodsFC st).
Definition setSelectedFilters (f : SelectedFilters) (st : State) : State :=
  mkState (activeTab st) (map st) (searchQuery st) (selectedNeighborhoodIds st)
    f (inputs st) (potholes st) (neighborhoodsFC st).
Definition setInputs (i : Inputs) (st : State) : State :=
  mkState (activeTab st) (map st) (searchQuery st) (selectedNeighborhoodIds st)
    (selectedFilters st) i (potholes st) (neighborhoodsFC st).
Definition setFc (fc : option GeoJSON) (st : State) : State :=
  mkState (activeTab st) (map st) (searchQuery st) (selectedNeighborhoodIds st)
    (selectedFilters st) (inputs st) (potholes st) fc.

(** The initial values of the hooks. *)
Definition initialState (potholes : list Pothole) : State :=
  {| activeTab := str "summary";
     map := None;
     searchQuery := [];
     selectedNeighborhoodIds := ∅;
     selectedFilters := mkSelected range_all [] [] [] [];
     inputs := mkInputs range_all [] [] [] [];
     potholes := potholes;
     neighborhoodsFC := None |}.

(** [toggleSetValue(set, value)] *)
Definition toggleSetValue {A} `{EqDecision A} (set : list A) (value : A) : list A :=
  if bool_decide (value ∈ set) then filter (λ x, x ≠ value) set
  else set ++ [value].

Definition applyFilters (st : State) : State :=
  setSelectedFilters
    {| dateRange := in_dateRange (inputs st);
       severities := in_severities (inputs st);
       statuses := in_statuses (inputs st);
       sizeMin := in_sizeMin (inputs st);
       sizeMax := in_sizeMax (inputs st) |} st.

Definition cleared : Inputs := mkInputs range_today [] [] [] [].

Definition clearFilters (st : State) : State :=
  setSelectedNeighborhoodIds ∅
    (setSelectedFilters (mkSelected range_today [] [] [] [])
       (setInputs cleared st)).

(** The updater the click handler of [onEachNeighborhood] passes to
    [setSelectedNeighborhoodIds], for the feature with [__idx = idx]. *)
Definition onEachNeighborhood (idx : nat) (prev : gset nat) : gset nat :=
  let alreadyOnlyThis :=
    bool_decide (base.size prev = 1) && bool_decide (idx ∈ prev) in
  if alreadyOnlyThis then ∅ else {[ idx ]}.

(** The updater of the neighborhood checkbox in the filter tab. *)
Definition checkbox_onChange (idx : nat) (prev : gset nat) : gset nat :=
  let alreadyOnlyThis :=
    bool_decide (base.size prev = 1) && bool_decide (idx ∈ prev) in
  if alreadyOnlyThis then ∅ else {[ idx ]}.

(** [neighborhoodsWithIdx]: the collection with each feature tagged with its
    position ([__idx]); [null] while nothing is loaded; mapping over the
    [features] of a value that has none throws. *)
Definition neighborhoodsWithIdx (fc : option GeoJSON)
    : Completion (option (list (nat * Feature))) :=
  match fc with
  | None => Normal None
  | Some (FeatureCollection features) => Normal (Some (imap pair features))
  | Some (OtherGeoJSON _) => Throw
  end.

(** *** The geocoding service, as [handleSearch] sees it *)

(** The first elements of the response array: [null]/[undefined] (reading
    [r.lat] throws), or anything else with the values [parseFloat(r.lat)]
    and [parseFloat(r.lon)]. *)
Inductive ResultItem :=
  | Nullish
  | Candidate (lat lon : float).

Inductive Json :=
  | NotArray
  | Array (results : list ResultItem).

(** [fetch] rejects, or resolves with [res.ok] and a body that [res.json()]
    parses ([Some]) or rejects ([None]). *)
Inductive Response :=
  | NetworkError
  | Http (ok : bool) (body : option Json).

(** What leaves the component during a search. *)
Inductive Event :=
  | Fetch (q : jsstring)
  | ConsoleError.

(** [encodeURIComponent] throws on a lone surrogate. *)
Definition isHigh (c : N) : bool := (0xD800 <=? c)%N && (c <=? 0xDBFF)%N.
Definition isLow (c : N) : bool := (0xDC00 <=? c)%N && (c <=? 0xDFFF)%N.
Fixpoint wellFormed (s : jsstring) : bool :=
  match s with
  | [] => true
  | c :: s' =>
      if isHigh c then
        match s' with
        | d :: s'' => isLow d && wellFormed s''
        | [] => false
        end
      else negb (isLow c) && wellFormed s'
  end.

Section Handlers.

Variable ToString : JsVal → jsstring.
Variables toLowerCase nfkd : jsstring → jsstring.

(** [L.geoJSON(f).getBounds().isValid()]; [false] also when building the
    layer throws (the source catches that). *)
Variable boundsValid : Feature → bool.

Definition features_of (fc : option GeoJSON) : list Feature :=
  match fc with
  | Some (FeatureCollection features) => features
  | _ => []
  end.

(** A name match: select that boundary alone and fit the map to it. *)
Definition selectMatch (n : IndexEntry) (st : State) : State :=
  let st' := setSelectedNeighborhoodIds {[ idx n ]} st in
  match map st, features_of (neighborhoodsFC st) !! idx n with
  | Some _, Some f =>
      if boundsValid f then setMap (Some (FitBounds (idx n))) st' else st'
  | _, _ => st'
  end.

(** Step 3 of [handleSearch]: the [try] block. *)
Definition geocode (st : State) (resp : Response) : State * list Event :=
  if negb (wellFormed (searchQuery st)) then (st, [ConsoleError])
  else
    let url := Fetch (searchQuery st) in
    match resp with
    | NetworkError => (st, [url; ConsoleError])
    | Http false _ => (st, [url; ConsoleError])
    | Http true None => (st, [url; ConsoleError])
    | Http true (Some NotArray) => (st, [url])
    | Http true (Some (Array [])) => (st, [url])
    | Http true (Some (Array (Nullish :: _))) => (st, [url; ConsoleError])
    | Http true (Some (Array (Candidate lat lon :: _))) =>
        match map st with
        | Some _ =>
            if negb (JS.isNaN lat) && negb (JS.isNaN lon)
            then (setMap (Some (FlyTo lat lon 13))
                    (setSelectedNeighborhoodIds ∅ st), [url])
            else (st, [url])
        | None => (st, [url])
        end
    end.

(** [handleSearch]; [resp] is how the geocoding request ends, if one is
    made. *)
Definition handleSearch (st : State) (resp : Response) : State * list Event :=
  let q := normalize toLowerCase nfkd (searchQuery st) in
  if bool_decide (q = []) then (st, [])
  else
    let neighborhoodIndex :=
      neighborhoodIndex ToString toLowerCase nfkd (neighborhoodsFC st) in
    match list_find (λ n, name n = q) neighborhoodIndex with
    | Some (_, exact) => (selectMatch exact st, [])
    | None =>
        match list_find (λ n, includes (name n) q = true) neighborhoodIndex with
        | Some (_, fuzzy) => (selectMatch fuzzy st, [])
        | None => geocode st resp
        end
    end.

(** *** Transitions *)

Inductive Action :=
  | TabClicked (t : jsstring)
  | MapCreated
  | FcLoaded (fc : option GeoJSON)
  | QueryTyped (q : jsstring)
  | NeighborhoodClicked (idx : nat)
  | NeighborhoodChecked (idx : nat)
  | DateRangeChosen (r : DateRange)
  | SeverityToggled (sev : Severity)
  | StatusToggled (st : Status)
  | SizeMinTyped (s : jsstring)
  | SizeMaxTyped (s : jsstring)
  | ApplyClicked
  | ClearClicked
  | SearchSubmitted (resp : Response).

(** The draft edits of the filter tab. *)
Definition editInputs (a : Action) (s : Inputs) : Inputs :=
  match a with
  | DateRangeChosen r =>
      mkInputs r (in_severities s) (in_statuses s) (in_sizeMin s) (in_sizeMax s)
  | SeverityToggled sev =>
      mkInputs (in_dateRange s) (toggleSetValue (in_severities s) sev)
        (in_statuses s) (in_sizeMin s) (in_sizeMax s)
  | StatusToggled st =>
      mkInputs (in_dateRange s) (in_severities s)
        (toggleSetValue (in_statuses s) st) (in_sizeMin s) (in_sizeMax s)
  | SizeMinTyped v =>
      mkInputs (in_dateRange s) (in_severities s) (in_statuses s) v (in_sizeMax s)
  | SizeMaxTyped v =>
      mkInputs (in_dateRange s) (in_severities s) (in_statuses s) (in_sizeMin s) v
  | _ => s
  end.

Definition isDraftEdit (a : Action) : bool :=
  match a with
  | DateRangeChosen _ | SeverityToggled _ | StatusToggled _
  | SizeMinTyped _ | SizeMaxTyped _ => true
  | _ => false
  end.

Definition step (a : Action) (st : State) : State :=
  match a with
  | TabClicked t => setActiveTab t st
  | MapCreated => setMap (Some InitialView) st
  | FcLoaded fc => setFc fc st
  | QueryTyped q => setSearchQuery q st
  | NeighborhoodClicked idx =>
      setSelectedNeighborhoodIds
        (onEachNeighborhood idx (selectedNeighborhoodIds st)) st
  | NeighborhoodChecked idx =>
      setSelectedNeighborhoodIds
        (checkbox_onChange idx (selectedNeighborhoodIds st)) st
  | DateRangeChosen _ | SeverityToggled _ | StatusToggled _
  | SizeMinTyped _ | SizeMaxTyped _ => setInputs (editInputs a (inputs st)) st
  | ApplyClicked => applyFilters st
  | ClearClicked => clearFilters st
  | SearchSubmitted resp => (handleSearch st resp).1
  end.

Inductive reachable (potholes : list Pothole) : State → Prop :=
  | reachable_init : reachable potholes (initialState potholes)
  | reachable_step a st :
      reachable potholes st → reachable potholes (step a st).

Variable booleanPointInPolygon : float * float → Feature → bool.
Variable Number : jsstring → float.
Variable startOfDay : Z → JS.Date.
Variable daysBefore : Z → Z → JS.Date.
Variable startOfYear : Z → JS.Date.

(** The record set the map and the counters render. *)
Definition rendered (st : State) (clock : nat → Z) : Completion (list Pothole) :=
  filteredPotholes booleanPointInPolygon Number startOfDay daysBefore
    startOfYear (potholes st) (selectedFilters st) (neighborhoodsFC st)
    (selectedNeighborhoodIds st) clock.

End Handlers.

End App.

(** ** Sample parameters *)

Module Samples.
Import Generator Boundary Filter App.

(** Every two points one kilometre apart, or all at the same place; a
    clock that stands still. *)
Definition far_apart : float * float → float * float → float := λ _ _, 1%float.
Definition same_place : float * float → float * float → float := λ _ _, 0%float.
Definition clock_at (t : Z) : nat → Z := λ _, t.

(** [toLowerCase] and NFKD on strings of ASCII letters, digits and
    spaces. *)
Definition toLowerCase_ascii (s : jsstring) : jsstring :=
  (λ c, if (65 <=? c)%N && (c <=? 90)%N then (c + 32)%N else c) <$> s.
Definition nfkd_ascii (s : jsstring) : jsstring := s.

Definition ToString_none : JsVal → jsstring := λ _, [].
Definition boundsValid_all : Feature → bool := λ _, true.

Definition kensington : Feature :=
  mkFeature (Some {[ str "AREA_NAME" := JString (str "Kensington Market") ]})
    (JNumber 1) [].
Definition annex : Feature :=
  mkFeature (Some {[ str "AREA_NAME" := JString (str "The Annex") ]})
    (JNumber 2) [].
Definition toronto : option GeoJSON :=
  Some (FeatureCollection [annex; kensington]).

Definition handleSearch_sample :=
  handleSearch ToString_none toLowerCase_ascii nfkd_ascii boundsValid_all.
Definition step_sample :=
  step ToString_none toLowerCase_ascii nfkd_ascii boundsValid_all.

(** A point-in-polygon test that puts the western half of the city in the
    first feature it is asked about and nothing anywhere else. *)
Definition west_of_centre : float * float → Feature → bool :=
  λ pt _, (pt.1 <? torontoCenter_lng)%float.

(** [Number] on the inputs used below. *)
Definition Number_sample (s : jsstring) : float :=
  if bool_decide (s = str "20") then 20%float
  else if bool_decide (s = []) then 0%float else nan.

(** A calendar in UTC, with years of 365 days. *)
Definition utc_startOfDay (now : Z) : JS.Date := Some (now - now mod 86400000)%Z.
Definition utc_daysBefore (now n : Z) : JS.Date := Some (now - n * 86400000)%Z.
Definition utc_startOfYear (now : Z) : JS.Date :=
  Some (now - now mod (365 * 86400000))%Z.

Definition filteredPotholes_sample :=
  filteredPotholes west_of_centre Number_sample utc_startOfDay utc_daysBefore
    utc_startOfYear.

Definition two_potholes : list Pothole :=
  [ mkPothole 0 43.65 (-79.40) critical pending (severityColors critical) 25
      (Some 1699990000000%Z);
    mkPothole 1 43.66 (-79.36) high repaired (severityColors high) 12
      (Some 1690000000000%Z) ].

End Samples.

(** * Properties *)

(** ** Comparisons of numbers *)

Module JSFacts.

Lemma SFcompare_nan_refl a : SFeqb a a = true → a ≠ S754_nan.
Proof. by destruct a. Qed.

Lemma SFltb_false_SFleb a b :
  a ≠ S754_nan → b ≠ S754_nan → SFltb a b = false → SFleb b a = true.
Proof.
  unfold SFltb, SFleb.
  destruct a as [sa|sa| |sa ma ea], b as [sb|sb| |sb mb eb]; try done;
    cbn; try (by destruct sa, sb); try (by destruct sa); try (by destruct sb).
  intros _ _.
  rewrite (Z.compare_antisym ea eb).
  rewrite !Pos.compare_cont_spec. cbn [Pos.switch_Eq].
  rewrite (Pos.compare_antisym ma mb).
  destruct sa, sb; try done;
    destruct (ea ?= eb)%Z; cbn; try done; by destruct (ma ?= mb)%positive.
Qed.

Lemma ltb_false_leb (x y : float) :
  JS.isNaN x = false → JS.isNaN y = false →
  (x <? y)%float = false → (y <=? x)%float = true.
Proof.
  unfold JS.isNaN. rewrite !negb_false_iff, !FloatAxioms.eqb_spec, FloatAxioms.ltb_spec, FloatAxioms.leb_spec.
  intros Hx%SFcompare_nan_refl Hy%SFcompare_nan_refl.
  by apply SFltb_false_SFleb.
Qed.

Lemma SFeqb_refl a : a ≠ S754_nan → SFeqb a a = true.
Proof.
  unfold SFeqb. destruct a as [s|s| |s m e]; try done; cbn.
  - by destruct s.
  - intros _. rewrite Z.compare_refl, Pos.compare_cont_refl. by destruct s.
Qed.

Lemma isNaN_true x : JS.isNaN x = true ↔ Prim2SF x = S754_nan.
Proof.
  unfold JS.isNaN. rewrite negb_true_iff, FloatAxioms.eqb_spec. split.
  - intros H. destruct (Prim2SF x) eqn:E; try done;
      by rewrite SFeqb_refl in H.
  - by intros ->.
Qed.

Lemma isNaN_false x : JS.isNaN x = false ↔ Prim2SF x ≠ S754_nan.
Proof. rewrite <-isNaN_true. by destruct (JS.isNaN x). Qed.

(** A comparison with NaN is false. *)
Lemma ltb_nan_l x y : JS.isNaN x = true → (x <? y)%float = false.
Proof. rewrite isNaN_true, FloatAxioms.ltb_spec. by intros ->. Qed.

Lemma ltb_nan_r x y : JS.isNaN y = true → (x <? y)%float = false.
Proof.
  rewrite isNaN_true, FloatAxioms.ltb_spec. intros ->.
  unfold SFltb. by destruct (Prim2SF x).
Qed.

Lemma SFleb_SFltb_false a b : SFleb b a = true → SFltb a b = false.
Proof.
  unfold SFltb, SFleb.
  destruct a as [sa|sa| |sa ma ea], b as [sb|sb| |sb mb eb]; try done;
    cbn; try (by destruct sa, sb); try (by destruct sa); try (by destruct sb).
  rewrite (Z.compare_antisym ea eb).
  rewrite !Pos.compare_cont_spec. cbn [Pos.switch_Eq].
  rewrite (Pos.compare_antisym ma mb).
  destruct sa, sb; try done;
    destruct (ea ?= eb)%Z; cbn; try done; by destruct (ma ?= mb)%positive.
Qed.

(** For numbers, [not (x < y)] is [y <= x]. *)
Lemma ltb_false_iff_leb (x y : float) :
  JS.isNaN x = false → JS.isNaN y = false →
  (x <? y)%float = false ↔ (y <=? x)%float = true.
Proof.
  intros Hx Hy. split; [by apply ltb_false_leb|].
  rewrite FloatAxioms.ltb_spec, FloatAxioms.leb_spec. apply SFleb_SFltb_false.
Qed.

End JSFacts.

(** ** The generator *)

Module GeneratorFacts.
Import Generator JSFacts Samples.

Definition increment : Z := 0x6d2b79f5.

(** The value of the closure's [seed] once [k] loop iterations are done. *)
Definition seed_at (k : nat) : Z := (12345 + 6 * Z.of_nat k * increment)%Z.

(** A record without its detection timestamp. *)
Definition undated (p : Pothole) : Pothole :=
  mkPothole (id p) (lat p) (lng p) (severity p) (status p) (color p) (size p)
    None.

Definition is_record (c : option Pothole) : bool :=
  match c with Some _ => true | None => false end.

Lemma rand_eta s : rand s = ((rand s).1, (s + increment)%Z).
Proof. reflexivity. Qed.

Ltac run_rand :=
  unfold candidate, bind, ret;
  do 6 (match goal with
        | |- context [rand ?s] =>
            rewrite (rand_eta s); generalize (rand s).1; intro
        end; cbv beta iota zeta).

Lemma candidate_seed now k s :
  (candidate now k s).2 = (s + 6 * increment)%Z.
Proof. run_rand. cbn [snd]. lia. Qed.

Lemma candidate_undated now1 now2 k s :
  undated <$> (candidate now1 k s).1 = undated <$> (candidate now2 k s).1.
Proof.
  run_rand.
  cbn [fst].
  destruct (JS.array_get SEVERITIES _); [|done].
  destruct (JS.array_get STATUSES _); done.
Qed.

Lemma candidate_is_record now k s :
  is_record (candidate now k s).1 = is_record (candidate 0 0 s).1.
Proof.
  run_rand.
  cbn [fst].
  destruct (JS.array_get SEVERITIES _); [|done].
  destruct (JS.array_get STATUSES _); done.
Qed.

Lemma candidate_id now k s p :
  (candidate now k s).1 = Some p → id p = k.
Proof.
  run_rand.
  cbn [fst].
  destruct (JS.array_get SEVERITIES _); [|done].
  destruct (JS.array_get STATUSES _); [|done].
  cbn. by intros [= <-].
Qed.

(** *** [mulberry32] on machine integers

    The 32-bit operators read their operands modulo 2^32, so that a call
    can be computed on residues, and then on 63-bit machine integers.  The
    tables below are computed that way. *)
Section MachineIntegers.

Local Open Scope uint63_scope.
Local Open Scope Z_scope.

Lemma ToUint32_land z : JS.ToUint32 z = Z.land z (Z.ones 32).
Proof. unfold JS.ToUint32. by rewrite Z.land_ones. Qed.

Lemma ToUint32_range z : 0 ≤ JS.ToUint32 z < 4294967296.
Proof. unfold JS.ToUint32. by apply Z.mod_pos_bound. Qed.

Lemma ToUint32_small u : 0 ≤ u < 4294967296 → JS.ToUint32 u = u.
Proof. unfold JS.ToUint32. apply Z.mod_small. Qed.

Lemma ToUint32_ToInt32 z : JS.ToUint32 (JS.ToInt32 z) = JS.ToUint32 z.
Proof.
  unfold JS.ToUint32, JS.ToInt32.
  rewrite Zminus_mod_idemp_l. f_equal. lia.
Qed.

Lemma ToUint32_lxor x y :
  JS.ToUint32 (Z.lxor x y) = Z.lxor (JS.ToUint32 x) (JS.ToUint32 y).
Proof.
  rewrite !ToUint32_land. apply Z.bits_inj'. intros n Hn.
  rewrite Z.land_spec, !Z.lxor_spec, !Z.land_spec.
  by destruct (Z.testbit x n), (Z.testbit y n), (Z.testbit (Z.ones 32) n).
Qed.

Lemma ToUint32_lor x y :
  JS.ToUint32 (Z.lor x y) = Z.lor (JS.ToUint32 x) (JS.ToUint32 y).
Proof.
  rewrite !ToUint32_land. apply Z.bits_inj'. intros n Hn.
  rewrite Z.land_spec, !Z.lor_spec, !Z.land_spec.
  by destruct (Z.testbit x n), (Z.testbit y n), (Z.testbit (Z.ones 32) n).
Qed.

Lemma ToUint32_xor a b :
  JS.ToUint32 (JS.xor a b) = Z.lxor (JS.ToUint32 a) (JS.ToUint32 b).
Proof. unfold JS.xor. by rewrite ToUint32_lxor, !ToUint32_ToInt32. Qed.

Lemma ToUint32_or a b :
  JS.ToUint32 (JS.or a b) = Z.lor (JS.ToUint32 a) (JS.ToUint32 b).
Proof. unfold JS.or. by rewrite ToUint32_lor, !ToUint32_ToInt32. Qed.

Lemma ToUint32_imul a b :
  JS.ToUint32 (JS.imul a b)
  = (JS.ToUint32 a * JS.ToUint32 b) mod 4294967296.
Proof. unfold JS.imul. by rewrite ToUint32_ToInt32. Qed.

Lemma ToUint32_add a b :
  JS.ToUint32 (a + b) = (JS.ToUint32 a + JS.ToUint32 b) mod 4294967296.
Proof. unfold JS.ToUint32. apply Zplus_mod. Qed.

Lemma shiftr_range u n :
  0 ≤ n → 0 ≤ u < 4294967296 → 0 ≤ Z.shiftr u n < 4294967296.
Proof.
  intros Hn Hu. rewrite Z.shiftr_div_pow2 by exact Hn.
  assert (0 < 2 ^ n) by (by apply Z.pow_pos_nonneg).
  split; [apply Z.div_pos; lia|].
  apply Z.le_lt_trans with u; [|lia].
  apply Z.div_le_upper_bound; [lia|]. nia.
Qed.

Lemma ToUint32_ushr a n :
  0 ≤ n < 32 →
  JS.ushr a n = Z.shiftr (JS.ToUint32 a) n ∧
  JS.ToUint32 (JS.ushr a n) = Z.shiftr (JS.ToUint32 a) n.
Proof.
  intros Hn. unfold JS.ushr.
  rewrite (ToUint32_small n) by lia. rewrite (Z.mod_small n 32) by lia.
  split; [reflexivity|]. apply ToUint32_small, shiftr_range; [lia|].
  apply ToUint32_range.
Qed.

(** One call, on the residue of the incremented seed. *)
Definition mix (u : Z) : Z :=
  let t := (Z.lxor u (Z.shiftr u 15) * Z.lor u 1) mod 4294967296 in
  let t := Z.lxor t
             ((t + (Z.lxor t (Z.shiftr t 7) * Z.lor t 61) mod 4294967296)
              mod 4294967296) in
  Z.lxor t (Z.shiftr t 14).

Lemma mulberry32_mix seed :
  (mulberry32 seed).1 = mix (JS.ToUint32 (seed + increment)).
Proof.
  unfold mulberry32. cbv zeta. cbn [fst].
  change 1831565813 with increment. generalize (seed + increment).
  intros t0.
  set (t1 := JS.imul (JS.xor t0 (JS.ushr t0 15)) (JS.or t0 1)).
  set (t2 := JS.xor t1 (t1 + JS.imul (JS.xor t1 (JS.ushr t1 7)) (JS.or t1 61))).
  destruct (ToUint32_ushr (JS.xor t2 (JS.ushr t2 14)) 0 ltac:(lia)) as [-> _].
  rewrite Z.shiftr_0_r.
  assert (JS.ToUint32 t1
          = (Z.lxor (JS.ToUint32 t0) (Z.shiftr (JS.ToUint32 t0) 15)
             * Z.lor (JS.ToUint32 t0) 1) mod 4294967296) as H1.
  { unfold t1. rewrite ToUint32_imul, ToUint32_xor, ToUint32_or.
    rewrite (proj2 (ToUint32_ushr t0 15 ltac:(lia))).
    by rewrite (ToUint32_small 1) by lia. }
  assert (JS.ToUint32 t2
          = Z.lxor (JS.ToUint32 t1)
              ((JS.ToUint32 t1
                + (Z.lxor (JS.ToUint32 t1) (Z.shiftr (JS.ToUint32 t1) 7)
                   * Z.lor (JS.ToUint32 t1) 61) mod 4294967296)
               mod 4294967296)) as H2.
  { unfold t2. rewrite ToUint32_xor, ToUint32_add, ToUint32_imul,
      ToUint32_xor, ToUint32_or.
    rewrite (proj2 (ToUint32_ushr t1 7 ltac:(lia))).
    by rewrite (ToUint32_small 61) by lia. }
  rewrite ToUint32_xor, (proj2 (ToUint32_ushr t2 14 ltac:(lia))), H2, H1.
  reflexivity.
Qed.

Definition mask32 : int := 0xFFFFFFFF%uint63.

Definition mix_int (u : int) : int :=
  (let t := ((u lxor (u >> 15)) * (u lor 1)) land mask32 in
   let t := t lxor ((t + (((t lxor (t >> 7)) * (t lor 61)) land mask32))
                    land mask32) in
   t lxor (t >> 14))%uint63.

Lemma wB_divide : (4294967296 | wB).
Proof. exists 2147483648. reflexivity. Qed.

Lemma wB_eq : wB = 9223372036854775808.
Proof. reflexivity. Qed.

Lemma land_mask32 x : φ (x land mask32)%uint63 = φ x mod 4294967296.
Proof.
  rewrite land_spec'. change (φ mask32) with (Z.ones 32).
  by rewrite Z.land_ones.
Qed.

Lemma mul_mask32 x y :
  φ ((x * y) land mask32)%uint63 = (φ x * φ y) mod 4294967296.
Proof.
  rewrite land_mask32, Uint63.mul_spec. apply Z.mod_mod_divide, wB_divide.
Qed.

Lemma add_mask32 x y :
  φ ((x + y) land mask32)%uint63 = (φ x + φ y) mod 4294967296.
Proof.
  rewrite land_mask32, Uint63.add_spec. apply Z.mod_mod_divide, wB_divide.
Qed.

Lemma lsr_shiftr x (n : int) (k : Z) :
  φ n = k → 0 ≤ k → φ (x >> n)%uint63 = Z.shiftr (φ x) k.
Proof.
  intros <- Hk. rewrite lsr_spec. by rewrite Z.shiftr_div_pow2.
Qed.

Lemma mix_int_spec u : φ (mix_int u) = mix (φ u).
Proof.
  unfold mix_int, mix. cbv zeta.
  repeat first
    [ rewrite lxor_spec' | rewrite lor_spec' | rewrite add_mask32
    | rewrite mul_mask32
    | rewrite (lsr_shiftr _ 14 14) by (reflexivity || lia)
    | rewrite (lsr_shiftr _ 7 7) by (reflexivity || lia)
    | rewrite (lsr_shiftr _ 15 15) by (reflexivity || lia) ].
  change (φ 1) with 1. change (φ 61) with 61.
  reflexivity.
Qed.

Lemma float_of_to_Z x : JS.float_of_Z (φ x) = of_uint63 x.
Proof.
  unfold JS.float_of_Z. pose proof (to_Z_bounded x) as Hx.
  destruct (Z.ltb_spec (φ x) 0) as [?|_]; [lia|].
  by rewrite of_to_Z.
Qed.

(** The [n]-th call of [rand()] after the generator was seeded with
    12345. *)
Definition rand_int (n : int) : float :=
  (of_uint63 (mix_int ((n * 0x6d2b79f5 + 12345) land mask32)%uint63)
   / 4294967296)%float.

Lemma rand_int_spec (n : int) (s : Z) :
  s + increment = 12345 + φ n * increment → (rand s).1 = rand_int n.
Proof.
  intros Hs. unfold rand, rand_int.
  rewrite (surjective_pairing (mulberry32 s)). cbn [fst].
  rewrite mulberry32_mix, Hs, <-float_of_to_Z, mix_int_spec. do 3 f_equal.
  rewrite add_mask32, Uint63.mul_spec.
  change (φ 1831565813) with increment. change (φ 12345) with 12345.
  unfold JS.ToUint32.
  rewrite (Zplus_mod ((φ n * increment) mod wB) 12345 4294967296).
  rewrite (Z.mod_mod_divide _ _ _ wB_divide), <-Zplus_mod.
  f_equal. lia.
Qed.

(** The record the loop body builds from its six draws. *)
Definition record_of (now : Z) (attempts : nat) (r1 r2 r3 r4 r5 r6 : float)
    : option Pothole :=
  severity ← JS.array_get SEVERITIES (JS.Math_floor (r1 * 4)%float);
  status ← JS.array_get STATUSES (JS.Math_floor (r2 * 3)%float);
  let size := (JS.Math_floor (r3 * 40) + 10)%float in
  let detected :=
    JS.TimeClip (JS.float_of_Z now - r4 * 7 * 24 * 60 * 60 * 1000)%float in
  Some {| id := attempts;
          lat := (torontoCenter_lat + (r5 - 0.5) * 0.15)%float;
          lng := (torontoCenter_lng + (r6 - 0.5) * 0.2)%float;
          severity := severity;
          status := status;
          color := severityColors severity;
          size := size;
          detected := detected |}.

(** The candidate of iteration [k + 1], from the calls 6k+1 to 6k+6. *)
Definition candidate_int (now : Z) (attempts : nat) (k : int)
    : option Pothole :=
  record_of now attempts
    (rand_int (6 * k + 1)) (rand_int (6 * k + 2)) (rand_int (6 * k + 3))
    (rand_int (6 * k + 4)) (rand_int (6 * k + 5)) (rand_int (6 * k + 6)).

Lemma call_index (k : nat) (c : int) :
  (k < 4000)%nat → φ c < 10 →
  φ (6 * of_Z (Z.of_nat k) + c)%uint63 = 6 * Z.of_nat k + φ c.
Proof.
  intros Hk Hc. pose proof (to_Z_bounded c) as Hc'. pose proof wB_eq as HwB.
  rewrite Uint63.add_spec, Uint63.mul_spec, of_Z_spec. change (φ 6) with 6.
  rewrite (Z.mod_small (Z.of_nat k)) by lia.
  rewrite (Z.mod_small (6 * Z.of_nat k)) by lia.
  apply Z.mod_small. lia.
Qed.

Lemma candidate_int_spec now j (k : nat) :
  (k < 4000)%nat →
  (candidate now j (seed_at k)).1 = candidate_int now j (of_Z (Z.of_nat k)).
Proof.
  intros Hk. unfold candidate, bind, ret, candidate_int.
  do 6 (match goal with
        | |- context [rand ?s] => rewrite (rand_eta s)
        end; cbv beta iota zeta).
  cbn [fst]. unfold record_of.
  assert (∀ (c : int) (z s : Z),
            φ c = z → z < 10 →
            s + increment = seed_at k + z * increment →
            (rand s).1 = rand_int (6 * of_Z (Z.of_nat k) + c)) as Hdraw.
  { intros c z s <- Hc Hs. apply rand_int_spec.
    rewrite (call_index k c Hk Hc), Hs. unfold seed_at. lia. }
  rewrite (Hdraw 1%uint63 1 (seed_at k)),
    (Hdraw 2%uint63 2 (seed_at k + increment)),
    (Hdraw 3%uint63 3 (seed_at k + increment + increment)),
    (Hdraw 4%uint63 4 (seed_at k + increment + increment + increment)),
    (Hdraw 5%uint63 5
       (seed_at k + increment + increment + increment + increment)),
    (Hdraw 6%uint63 6
       (seed_at k + increment + increment + increment + increment
        + increment));
    reflexivity || lia.
Qed.

(** [all_from f n i]: [f] holds at the [n] indices from [i] on. *)
Fixpoint all_from (f : int → bool) (n : nat) (i : int) : bool :=
  match n with
  | O => true
  | S n => f i && all_from f n (i + 1)
  end.

Lemma all_from_spec f n i :
  φ i + Z.of_nat n < wB → all_from f n i = true →
  ∀ j, φ i ≤ φ j < φ i + Z.of_nat n → f j = true.
Proof.
  revert i. induction n as [|n IH]; intros i Hn H j Hj; [lia|].
  cbn [all_from] in H. apply andb_true_iff in H as [Hi H].
  pose proof (to_Z_bounded i) as Hi'.
  destruct (decide (φ j = φ i)) as [Heq|Hne].
  - by rewrite (to_Z_inj _ _ Heq).
  - assert (φ (i + 1) = φ i + 1) as Hs.
    { rewrite Uint63.add_spec. change (φ 1) with 1. apply Z.mod_small. lia. }
    apply (IH (i + 1)%uint63); [lia|exact H|lia].
Qed.

Lemma all_from_attempts f (k : nat) :
  all_from f 4000 0 = true → (k < 4000)%nat →
  f (of_Z (Z.of_nat k)) = true.
Proof.
  intros H Hk. apply (all_from_spec f 4000 0 ltac:(reflexivity) H).
  pose proof wB_eq as HwB.
  rewrite of_Z_spec, Z.mod_small; change (φ 0) with 0; lia.
Qed.

End MachineIntegers.

Lemma records_table :
  all_from (λ k, is_record (candidate_int 0 0 k)) 4000 0 = true.
Proof. vm_compute. reflexivity. Qed.

(** Every candidate the loop can draw is a record: the array lookups of
    all [maxAttempts] iterations are defined. *)
Lemma candidates_table :
  forallb (λ k, is_record (candidate 0 0 (seed_at k)).1) (seq 0 maxAttempts)
  = true.
Proof.
  apply forallb_forall. intros k [_ Hk]%in_seq.
  change (0 + maxAttempts) with 4000 in Hk.
  rewrite candidate_int_spec by exact Hk.
  by apply (all_from_attempts (λ k, is_record (candidate_int 0 0 k))
              k records_table).
Qed.

Lemma candidates_defined now k j :
  k < maxAttempts → is_record (candidate now j (seed_at k)).1 = true.
Proof.
  intros Hk. rewrite candidate_is_record.
  pose proof candidates_table as H.
  rewrite forallb_forall in H. apply H, in_seq. lia.
Qed.

Lemma maxAttempts_eq : maxAttempts = 4000.
Proof. reflexivity. Qed.

Section Loop.

Variable turf_distance : float * float → float * float → float.
Variable Date_now : nat → Z.

Local Abbreviation body := (loop_body turf_distance Date_now).
Local Abbreviation while := (while_loop turf_distance Date_now).
Local Abbreviation within := (withinMeters turf_distance).
Local Abbreviation existsWithin := (existsWithinMeters turf_distance).

Lemma loop_test_true st :
  loop_test st = true ↔
  length (items st) < targetCount ∧ attempts st < maxAttempts.
Proof.
  unfold loop_test. rewrite andb_true_iff, !bool_decide_eq_true. done.
Qed.

Lemma loop_test_false st :
  loop_test st = false ↔
  targetCount ≤ length (items st) ∨ maxAttempts ≤ attempts st.
Proof.
  unfold loop_test. rewrite andb_false_iff, !bool_decide_eq_false. lia.
Qed.

(** One iteration: a candidate is drawn from six calls of [rand()] and is
    either appended or dropped. *)
Lemma loop_body_Some st st' :
  body st = Some st' →
  ∃ cand,
    (candidate (Date_now (S (attempts st))) (S (attempts st)) (seed st)).1
      = Some cand ∧
    attempts st' = S (attempts st) ∧
    seed st' = (seed st + 6 * increment)%Z ∧
    items st' = (if existsWithin (items st) cand 10 then items st
                 else items st ++ [cand]).
Proof.
  unfold loop_body.
  pose proof (candidate_seed (Date_now (S (attempts st))) (S (attempts st))
                (seed st)) as Hs.
  destruct (candidate _ _ _) as [[cand|] s']; [|done].
  cbn in Hs. subst s'. cbn. intros [= <-]. exists cand. cbn.
  split_and!; try done. by destruct (existsWithin _ _ _).
Qed.

Lemma loop_body_is_Some st :
  is_record (candidate (Date_now (S (attempts st))) (S (attempts st))
               (seed st)).1 = true →
  is_Some (body st).
Proof.
  unfold loop_body. destruct (candidate _ _ _) as [[cand|] s']; [|done].
  intros _. cbn. eauto.
Qed.

Lemma while_loop_S fuel st :
  while (S fuel) st
  = if loop_test st then st' ← body st; while fuel st' else Some st.
Proof. reflexivity. Qed.

(** The loop as an invariant rule. *)
Lemma while_loop_rule (I : Loop → Prop) :
  (∀ st st', I st → loop_test st = true → body st = Some st' → I st') →
  ∀ fuel st st', I st → while fuel st = Some st' →
                 I st' ∧ loop_test st' = false.
Proof.
  intros Hstep. induction fuel as [|fuel IH]; intros st st' HI; [done|].
  rewrite while_loop_S. destruct (loop_test st) eqn:Ht.
  - destruct (body st) as [st1|] eqn:Hb; [|done]. cbn.
    apply IH. by eapply Hstep.
  - by intros [= <-].
Qed.

Definition on_track (st : Loop) : Prop :=
  seed st = seed_at (attempts st).

Lemma on_track_step st st' :
  on_track st → body st = Some st' → on_track st'.
Proof.
  unfold on_track. intros Hs (cand & _ & Ha & Hs' & _)%loop_body_Some.
  rewrite Hs', Ha, Hs. unfold seed_at. lia.
Qed.

(** The loop ends: [maxAttempts] iterations at most, and no candidate is
    ever [undefined]. *)
Lemma while_loop_terminates fuel st :
  on_track st → attempts st ≤ maxAttempts →
  maxAttempts < fuel + attempts st →
  is_Some (while fuel st).
Proof.
  revert st. induction fuel as [|fuel IH]; intros st Hs Hle Hfuel; [lia|].
  rewrite while_loop_S. destruct (loop_test st) eqn:Ht; [|eauto].
  apply loop_test_true in Ht as [_ Hlt].
  destruct (loop_body_is_Some st) as [st1 Hb].
  { rewrite Hs. by apply candidates_defined. }
  rewrite Hb. cbn.
  pose proof (on_track_step _ _ Hs Hb).
  apply loop_body_Some in Hb as (cand & _ & Ha & _).
  apply IH; [done|lia|lia].
Qed.

Definition init : Loop := mkLoop 12345 0 [].

Lemma generate_terminates : is_Some (generate turf_distance Date_now).
Proof.
  unfold generate. apply while_loop_terminates.
  - reflexivity.
  - cbn. lia.
  - cbn [attempts]. lia.
Qed.

(** What the loop keeps true of its counters. *)
Definition counted (st : Loop) : Prop :=
  attempts st ≤ maxAttempts ∧
  length (items st) ≤ attempts st ∧
  length (items st) ≤ targetCount ∧
  Forall (λ p, 1 ≤ id p ≤ attempts st) (items st).

Lemma counted_step st st' :
  counted st → loop_test st = true → body st = Some st' → counted st'.
Proof.
  intros (Ha & Hl & Ht & Hid) [Hlen Hatt]%loop_test_true
    (cand & Hc & Ha' & _ & Hi)%loop_body_Some.
  apply candidate_id in Hc.
  assert (Forall (λ p, 1 ≤ id p ≤ attempts st') (items st)).
  { eapply Forall_impl; [done|]. cbn. lia. }
  unfold counted. rewrite Hi.
  destruct (existsWithin _ _ _).
  - split_and!; [lia..|done].
  - rewrite length_app, Forall_app, Forall_singleton. cbn [length].
    split_and!; (lia || done).
Qed.

Lemma generate_counted st :
  generate turf_distance Date_now = Some st →
  counted st ∧ loop_test st = false.
Proof.
  apply (while_loop_rule counted); [apply counted_step|].
  unfold counted. cbn. split_and!; try lia. constructor.
Qed.

Lemma imap_set_id_ids (l : list Pothole) k :
  id <$> imap (λ i, set_id (k + i)) l = seq k (length l).
Proof.
  revert k. induction l as [|p l IH]; intros k; [done|].
  cbn. f_equal; [f_equal; lia|].
  rewrite <-IH. f_equal. apply imap_ext. intros. cbn. f_equal. lia.
Qed.

End Loop.

Section Separation.

Variable turf_distance : float * float → float * float → float.
Variable Date_now : nat → Z.

Local Abbreviation body := (loop_body turf_distance Date_now).
Local Abbreviation within := (withinMeters turf_distance).
Local Abbreviation existsWithin := (existsWithinMeters turf_distance).

(** Each record is at least the separation away from every later one. *)
Definition separated (l : list Pothole) : Prop :=
  ∀ i j a b, i < j → l !! i = Some a → l !! j = Some b →
             within a b 10 = false.

Lemma existsWithinMeters_false l c m :
  existsWithin l c m = false ↔ ∀ p, p ∈ l → within p c m = false.
Proof.
  unfold existsWithinMeters. induction l as [|q l IH]; cbn.
  - split; [|done]. by intros _ p ?%elem_of_nil.
  - rewrite orb_false_iff, IH. split.
    + intros [Hq Hl] p [->|Hp]%elem_of_cons; [exact Hq|by apply Hl].
    + intros H. split; [apply (H q); left|intros p Hp; apply H; by right].
Qed.

Lemma separated_step st st' :
  separated (items st) → body st = Some st' → separated (items st').
Proof.
  intros Hsep (cand & _ & _ & _ & Hi)%loop_body_Some. rewrite Hi.
  destruct (existsWithin (items st) cand 10) eqn:He; [done|].
  rewrite existsWithinMeters_false in He.
  intros i j a b Hij Ha Hb.
  destruct (decide (j < length (items st))) as [Hj|Hj].
  - rewrite lookup_app_l in Ha, Hb by lia. exact (Hsep i j a b Hij Ha Hb).
  - rewrite lookup_app_l in Ha.
    2:{ apply lookup_lt_Some in Hb. rewrite length_app in Hb. cbn in Hb. lia. }
    rewrite lookup_app_r in Hb by lia.
    apply list_lookup_singleton_Some in Hb as [_ <-].
    apply He. apply list_elem_of_lookup. by exists i.
Qed.

Lemma generate_separated st :
  generate turf_distance Date_now = Some st → separated (items st).
Proof.
  intros H.
  refine (proj1 (while_loop_rule _ _ (λ st, separated (items st)) _ _ _ _ _ H)).
  - intros ? ? Hs _. by apply separated_step.
  - by intros i j a b _ ?.
Qed.

Lemma withinMeters_set_id i j a b m :
  within (set_id i a) (set_id j b) m = within a b m.
Proof. reflexivity. Qed.

Lemma buildInitialPotholes_separated l :
  buildInitialPotholes turf_distance Date_now = Some l → separated l.
Proof.
  unfold buildInitialPotholes.
  destruct (generate _ _) as [st|] eqn:Hg; [|done]. cbn. intros [= <-].
  intros i j a b Hij.
  rewrite !list_lookup_imap.
  destruct (items st !! i) as [a'|] eqn:Ha; [|done].
  destruct (items st !! j) as [b'|] eqn:Hb; [|done].
  cbn. intros [= <-] [= <-]. change (within a' b' 10 = false).
  exact (generate_separated st Hg i j a' b' Hij Ha Hb).
Qed.

End Separation.

Section TwoRuns.

Variable turf_distance : float * float → float * float → float.
Variables clock1 clock2 : nat → Z.

Local Abbreviation within := (withinMeters turf_distance).
Local Abbreviation existsWithin := (existsWithinMeters turf_distance).

Lemma existsWithinMeters_undated l c m :
  existsWithin (undated <$> l) (undated c) m = existsWithin l c m.
Proof.
  unfold existsWithinMeters. induction l as [|p l IH]; [done|].
  cbn [fmap list_fmap existsb]. by rewrite <-IH.
Qed.

(** Two runs of the loop that differ in the clock only. *)
Definition in_step (st1 st2 : Loop) : Prop :=
  seed st1 = seed st2 ∧ attempts st1 = attempts st2 ∧
  undated <$> items st1 = undated <$> items st2.

Lemma loop_test_in_step st1 st2 :
  in_step st1 st2 → loop_test st1 = loop_test st2.
Proof.
  intros (_ & Ha & Hi). unfold loop_test.
  apply (f_equal length) in Hi. rewrite !length_fmap in Hi.
  by rewrite Ha, Hi.
Qed.

Lemma loop_body_in_step st1 st2 :
  in_step st1 st2 →
  option_Forall2 in_step (loop_body turf_distance clock1 st1)
    (loop_body turf_distance clock2 st2).
Proof.
  intros (Hs & Ha & Hi). unfold loop_body. rewrite Hs, Ha.
  pose proof (candidate_undated (clock1 (S (attempts st2)))
                (clock2 (S (attempts st2))) (S (attempts st2)) (seed st2)) as Hu.
  pose proof (candidate_seed (clock1 (S (attempts st2))) (S (attempts st2))
                (seed st2)) as H1.
  pose proof (candidate_seed (clock2 (S (attempts st2))) (S (attempts st2))
                (seed st2)) as H2.
  destruct (candidate (clock1 _) _ _) as [[p1|] s1],
           (candidate (clock2 _) _ _) as [[p2|] s2];
    cbn [fst snd fmap option_fmap option_map mbind option_bind] in *;
    try done; [|constructor].
  assert (undated p1 = undated p2) as Hp by congruence.
  subst s1 s2. constructor.
  rewrite <-(existsWithinMeters_undated (items st1)),
          <-(existsWithinMeters_undated (items st2)), Hi, Hp.
  split_and!; [done..|]. cbn [items].
  destruct (negb (existsWithin _ _ _)); [|done].
  by rewrite !fmap_app, Hi; cbn [fmap list_fmap]; rewrite Hp.
Qed.

Lemma while_loop_in_step fuel st1 st2 :
  in_step st1 st2 →
  option_Forall2 in_step (while_loop turf_distance clock1 fuel st1)
    (while_loop turf_distance clock2 fuel st2).
Proof.
  revert st1 st2. induction fuel as [|fuel IH]; intros st1 st2 H.
  { constructor. }
  rewrite !while_loop_S, (loop_test_in_step _ _ H).
  destruct (loop_test st2); [|by constructor].
  destruct (loop_body_in_step _ _ H) as [st1' st2' H'|]; cbn.
  - by apply IH.
  - constructor.
Qed.

Lemma undated_set_id i p : undated (set_id i p) = set_id i (undated p).
Proof. reflexivity. Qed.

Lemma buildInitialPotholes_undated :
  fmap (M:=list) undated <$> buildInitialPotholes turf_distance clock1
  = fmap (M:=list) undated <$> buildInitialPotholes turf_distance clock2.
Proof.
  unfold buildInitialPotholes, generate.
  destruct (while_loop_in_step (S maxAttempts) (mkLoop 12345 0 [])
              (mkLoop 12345 0 [])) as [st1 st2 (_ & _ & Hi)|]; [done| |done].
  cbn. f_equal.
  rewrite !fmap_imap.
  transitivity (imap set_id (undated <$> items st1)).
  { rewrite imap_fmap. by apply imap_ext. }
  rewrite Hi, imap_fmap. by apply imap_ext.
Qed.

(** The loop reads the clock in iterations [attempts + 1 .. maxAttempts]
    only. *)
Lemma while_loop_clock fuel st :
  (∀ k, attempts st < k ≤ maxAttempts → clock1 k = clock2 k) →
  while_loop turf_distance clock1 fuel st
  = while_loop turf_distance clock2 fuel st.
Proof.
  revert st. induction fuel as [|fuel IH]; intros st H; [done|].
  rewrite !while_loop_S.
  destruct (loop_test st) eqn:Ht; [|done].
  apply loop_test_true in Ht as [_ Hlt].
  assert (loop_body turf_distance clock1 st = loop_body turf_distance clock2 st)
    as Hb.
  { unfold loop_body. by rewrite H by lia. }
  rewrite Hb. destruct (loop_body turf_distance clock2 st) as [st'|] eqn:Hst;
    [|done].
  cbn. apply IH. intros k Hk. apply H.
  apply loop_body_Some in Hst as (_ & _ & Ha & _). lia.
Qed.

Lemma buildInitialPotholes_clock :
  (∀ k, 1 ≤ k ≤ maxAttempts → clock1 k = clock2 k) →
  buildInitialPotholes turf_distance clock1
  = buildInitialPotholes turf_distance clock2.
Proof.
  intros H. unfold buildInitialPotholes, generate.
  rewrite while_loop_clock; [done|]. cbn [attempts]. intros k Hk. apply H. lia.
Qed.

End TwoRuns.

(** C9: the loop returns; it stops with exactly [targetCount] = 80 records,
    or with fewer once all [maxAttempts] = 4000 attempts are used; the
    records returned are numbered 0 .. count-1 in list order, whatever
    attempt numbers they carried in the loop. *)
Theorem generator_budget turf_distance Date_now :
  ∃ st potholes,
    generate turf_distance Date_now = Some st ∧
    buildInitialPotholes turf_distance Date_now = Some potholes ∧
    length potholes = length (items st) ∧
    length potholes ≤ attempts st ∧
    (length potholes = targetCount ∨
     length potholes < targetCount ∧ attempts st = maxAttempts) ∧
    id <$> potholes = seq 0 (length potholes) ∧
    Forall (λ p, 1 ≤ id p ≤ attempts st) (items st).
Proof.
  destruct (generate_terminates turf_distance Date_now) as [st Hg].
  exists st, (imap set_id (items st)).
  destruct (generate_counted _ _ _ Hg) as [(Ha & Hl & Ht & Hid) Hstop].
  apply loop_test_false in Hstop.
  unfold buildInitialPotholes. rewrite Hg, length_imap.
  split; [reflexivity|]. split; [reflexivity|]. split; [reflexivity|].
  split; [exact Hl|]. split; [lia|]. split; [|exact Hid].
  apply (imap_set_id_ids (items st) 0).
Qed.

Example generator_fills_target :
  (λ st, (attempts st, length (items st)))
    <$> generate far_apart (clock_at 1700000000000) = Some (80, 80).
Proof. vm_compute. reflexivity. Qed.

Example generator_exhausts_budget :
  (λ st, (attempts st, length (items st)))
    <$> generate same_place (clock_at 1700000000000) = Some (4000, 1).
Proof. vm_compute. reflexivity. Qed.

(** C2: no two distinct records of a generated set are within 10 metres of
    each other, for a distance that does not depend on the order of its
    arguments; when the distance is a number, it is at least 10 metres. *)
Theorem generated_records_separated turf_distance Date_now
    (Hsym : ∀ p q, turf_distance p q = turf_distance q p) potholes i j a b :
  buildInitialPotholes turf_distance Date_now = Some potholes →
  i ≠ j → potholes !! i = Some a → potholes !! j = Some b →
  withinMeters turf_distance a b 10 = false ∧
  (JS.isNaN (turf_distance (lng a, lat a) (lng b, lat b) * 1000) = false →
   (10 <=? turf_distance (lng a, lat a) (lng b, lat b) * 1000)%float = true).
Proof.
  intros Hb Hij Ha Hb'.
  assert (withinMeters turf_distance a b 10 = false) as Hw.
  { pose proof (buildInitialPotholes_separated _ _ _ Hb) as Hsep.
    destruct (decide (i < j)) as [Hlt|Hge].
    - exact (Hsep i j a b Hlt Ha Hb').
    - unfold withinMeters. rewrite Hsym.
      apply (Hsep j i b a); [lia|done..]. }
  split; [done|]. intros Hnan. by apply ltb_false_leb.
Qed.

Lemma generated_records_separated_witness :
  ∃ potholes a b,
    buildInitialPotholes far_apart (clock_at 1700000000000) = Some potholes ∧
    potholes !! 0 = Some a ∧ potholes !! 1 = Some b ∧
    withinMeters far_apart a b 10 = false ∧
    (JS.isNaN (far_apart (lng a, lat a) (lng b, lat b) * 1000) = false →
     (10 <=? far_apart (lng a, lat a) (lng b, lat b) * 1000)%float = true).
Proof.
  eexists _, _, _. split; [vm_compute; reflexivity|].
  split; [reflexivity|]. split; [reflexivity|].
  eapply (generated_records_separated far_apart (clock_at 1700000000000)
            (λ _ _, eq_refl) _ 0 1); [vm_compute; reflexivity|lia|reflexivity..].
Defined.

(** C1, as the code has it: two runs of the generator return the same
    number of records, equal in id, latitude, longitude, severity, status,
    colour and size, whatever the clock; the detection timestamps are equal
    too when the two runs read the same clock values. *)
Theorem generator_deterministic_up_to_clock turf_distance clock1 clock2 :
  fmap (M:=list) undated <$> buildInitialPotholes turf_distance clock1
  = fmap (M:=list) undated <$> buildInitialPotholes turf_distance clock2 ∧
  length <$> buildInitialPotholes turf_distance clock1
  = length <$> buildInitialPotholes turf_distance clock2 ∧
  ((∀ k, 1 ≤ k ≤ maxAttempts → clock1 k = clock2 k) →
   buildInitialPotholes turf_distance clock1
   = buildInitialPotholes turf_distance clock2).
Proof.
  pose proof (buildInitialPotholes_undated turf_distance clock1 clock2) as H.
  split_and!; [done| |apply buildInitialPotholes_clock].
  destruct (buildInitialPotholes _ clock1), (buildInitialPotholes _ clock2);
    cbn in *; try done.
  f_equal. injection H as H. apply (f_equal length) in H.
  by rewrite !length_fmap in H.
Qed.

(** C1, as stated, fails: a run one day later returns other detection
    timestamps. *)
Lemma generator_depends_on_clock :
  buildInitialPotholes far_apart (clock_at 1700000000000)
  ≠ buildInitialPotholes far_apart (clock_at 1700086400000).
Proof.
  intros H.
  apply (f_equal (λ o, l ← o; p ← head l; detected p)) in H.
  vm_compute in H. discriminate H.
Qed.

End GeneratorFacts.

(** ** The filter *)

Module FilterFacts.
Import Generator Boundary Filter JSFacts.

Lemma elem_of_indexed_filter {A} (P : nat * A → Prop) `{∀ x, Decision (P x)}
    (l : list A) (x : A) :
  x ∈ (filter P (imap pair l)).*2 ↔ ∃ i, l !! i = Some x ∧ P (i, x).
Proof.
  rewrite list_elem_of_fmap. split.
  - intros ([i y] & -> & [HP Hin]%list_elem_of_filter).
    apply elem_of_lookup_imap in Hin as (j & z & [= -> ->] & Hl). eauto.
  - intros (i & Hl & HP). exists (i, x). split; [done|].
    apply list_elem_of_filter. split; [done|].
    apply elem_of_lookup_imap. eauto.
Qed.

Lemma indexed_filter_and {A} (P : nat * A → Prop) (Q : A → Prop)
    `{∀ x, Decision (P x)} `{∀ x, Decision (Q x)} (L : list (nat * A)) :
  (filter (λ ip, P ip ∧ Q ip.2) L).*2 = filter Q ((filter P L).*2).
Proof.
  induction L as [|[i x] L IH]; [done|].
  rewrite !filter_cons. cbn [snd].
  destruct (decide (P (i, x))) as [HP|HP].
  - rewrite fmap_cons, filter_cons. cbn [snd].
    destruct (decide (Q x)).
    + rewrite decide_True by done. by rewrite fmap_cons, IH.
    + rewrite decide_False by tauto. done.
  - rewrite decide_False by tauto. done.
Qed.

Lemma indexed_filter_all {A} (P : nat * A → Prop) `{∀ x, Decision (P x)}
    (l : list A) :
  (∀ x, P x) → (filter P (imap pair l)).*2 = l.
Proof.
  intros HP.
  assert (∀ L : list (nat * A), filter P L = L) as ->.
  { induction L as [|y L IH]; [done|].
    by rewrite filter_cons, decide_True, IH. }
  rewrite fmap_imap. change (imap (λ _ x, x) l = l).
  induction l as [|x l IH] using rev_ind; [done|].
  by rewrite imap_app, IH.
Qed.

Section Runtime.

Variable booleanPointInPolygon : float * float → Feature → bool.
Variable Number : jsstring → float.
Variable startOfDay : Z → JS.Date.
Variable daysBefore : Z → Z → JS.Date.
Variable startOfYear : Z → JS.Date.

Local Abbreviation pointOnAnyPolygon := (pointOnAnyPolygon booleanPointInPolygon).
Local Abbreviation dateInRange :=
  (dateInRange startOfDay daysBefore startOfYear).
Local Abbreviation keep :=
  (keep booleanPointInPolygon Number startOfDay daysBefore startOfYear).
Local Abbreviation filteredPotholes :=
  (filteredPotholes booleanPointInPolygon Number startOfDay daysBefore
     startOfYear).

(** The callback of the filter is the conjunction of its seven steps. *)
Lemma keep_true filters fc active now p :
  keep filters fc active now p = true ↔
    pointOnAnyPolygon (lat p) (lng p) fc = true ∧
    (∀ fs, active = Some fs →
           ∃ f, f ∈ fs ∧ booleanPointInPolygon (lng p, lat p) f = true) ∧
    dateInRange (detected p) (dateRange filters) now = true ∧
    (severities filters = [] ∨ severity p ∈ severities filters) ∧
    (statuses filters = [] ∨ status p ∈ statuses filters) ∧
    (sizeMin filters = [] ∨ (size p <? Number (sizeMin filters))%float = false) ∧
    (sizeMax filters = [] ∨ (Number (sizeMax filters) <? size p)%float = false).
Proof.
  unfold Filter.keep.
  destruct (Filter.pointOnAnyPolygon _ _ _ _); cbn [negb];
    [|split; [done|by intros [? _]]].
  assert ((match active with
           | Some fs =>
               negb (existsb (λ f, booleanPointInPolygon (lng p, lat p) f) fs)
           | None => false
           end) = false ↔
          ∀ fs, active = Some fs →
                ∃ f, f ∈ fs ∧ booleanPointInPolygon (lng p, lat p) f = true)
    as Hact.
  { destruct active as [fs|]; [|by split].
    rewrite negb_false_iff, existsb_exists. split.
    - intros (f & Hin & Hf) ? [= <-]. exists f. by rewrite list_elem_of_In.
    - intros Hfs. destruct (Hfs fs eq_refl) as (f & Hin & Hf).
      exists f. by rewrite <-list_elem_of_In. }
  destruct (match active with Some _ => _ | None => _ end).
  { split; [done|]. intros (_ & Ha & _). by apply Hact in Ha. }
  destruct (Filter.dateInRange _ _ _ _ _ _); cbn [negb];
    [|split; [done|by intros (_ & _ & ? & _)]].
  pose proof (proj1 Hact eq_refl) as Ha.
  destruct (size p <? _)%float, (_ <? size p)%float;
    repeat case_bool_decide; cbn; split; try done;
    try (intros _; split_and!; auto; fail);
    intros (_ & _ & _ & [?|?] & [?|?] & [?|?] & [?|?]); done.
Qed.


Lemma activeNeighborhoods_None selected :
  activeNeighborhoods None selected = Normal None.
Proof. reflexivity. Qed.

Lemma elem_of_filteredPotholes potholes filters fc selected clock l p :
  filteredPotholes potholes filters fc selected clock = Normal l →
  p ∈ l ↔
  ∃ i active, potholes !! i = Some p ∧
              activeNeighborhoods fc selected = Normal active ∧
              keep filters fc active (clock i) p = true.
Proof.
  unfold Filter.filteredPotholes.
  destruct (activeNeighborhoods fc selected) as [active|]; [|done].
  intros [= <-]. rewrite elem_of_indexed_filter. split.
  - intros (i & Hi & Hk). eauto.
  - intros (i & ? & Hi & [= <-] & Hk). eauto.
Qed.

(** C3: a record whose point is outside every polygon of the boundary
    collection is not in the filtered set, whatever the selection and the
    criteria; without a collection the step lets every point through and
    the filter returns. *)
Theorem boundary_step_excludes :
  (∀ potholes filters features selected clock p,
     (∀ f, f ∈ features → booleanPointInPolygon (lng p, lat p) f = false) →
     ∃ l, filteredPotholes potholes filters (Some (FeatureCollection features))
            selected clock = Normal l ∧ p ∉ l) ∧
  (∀ lat lng, pointOnAnyPolygon lat lng None = true) ∧
  (∀ potholes filters selected clock,
     ∃ l, filteredPotholes potholes filters None selected clock = Normal l ∧
          ∀ p, p ∈ l ↔ ∃ j, potholes !! j = Some p ∧
                            keep filters None None (clock j) p = true).
Proof.
  split_and!.
  - intros potholes filters features selected clock p Hout.
    destruct (filteredPotholes potholes filters
                (Some (FeatureCollection features)) selected clock)
      as [l|] eqn:Hl.
    2:{ unfold Filter.filteredPotholes, activeNeighborhoods in Hl.
        by destruct (bool_decide _) in Hl. }
    exists l. split; [done|].
    rewrite (elem_of_filteredPotholes _ _ _ _ _ _ _ Hl).
    intros (i & active & _ & _ & Hk). apply keep_true in Hk as [Hpt _].
    cbn in Hpt. apply existsb_exists in Hpt as (f & Hf%list_elem_of_In & Hin).
    by rewrite Hout in Hin.
  - done.
  - intros potholes filters selected clock. eexists. split; [reflexivity|].
    intros p. by rewrite elem_of_indexed_filter.
Qed.

(** C5: the attribute criteria are independent conjuncts of the filter
    callback; an empty allowed set or an empty bound input restricts
    nothing, a bound that is not a number restricts nothing, and a numeric
    bound is [size >= min] (resp. [size <= max]).  With
    [{severities: ["critical"], statuses: [], sizeMin: "20"}] and the other
    criteria unset, the filter returns, of the records the boundary steps
    let through, exactly those of severity critical and size [>= 20]. *)
Theorem attribute_criteria :
  (∀ filters fc active now p,
     keep filters fc active now p = true ↔
       pointOnAnyPolygon (lat p) (lng p) fc = true ∧
       (∀ fs, active = Some fs →
              ∃ f, f ∈ fs ∧ booleanPointInPolygon (lng p, lat p) f = true) ∧
       dateInRange (detected p) (dateRange filters) now = true ∧
       (severities filters = [] ∨ severity p ∈ severities filters) ∧
       (statuses filters = [] ∨ status p ∈ statuses filters) ∧
       (sizeMin filters = [] ∨
        (size p <? Number (sizeMin filters))%float = false) ∧
       (sizeMax filters = [] ∨
        (Number (sizeMax filters) <? size p)%float = false)) ∧
  (∀ p bound, JS.isNaN (Number bound) = true →
     (size p <? Number bound)%float = false ∧
     (Number bound <? size p)%float = false) ∧
  (∀ p bound, JS.isNaN (size p) = false → JS.isNaN (Number bound) = false →
     ((size p <? Number bound)%float = false ↔
      (Number bound <=? size p)%float = true) ∧
     ((Number bound <? size p)%float = false ↔
      (size p <=? Number bound)%float = true)) ∧
  (Number (str "20") = 20%float →
   ∀ potholes fc selected clock,
     let wanted p := severity p = critical ∧ (size p <? 20)%float = false in
     filteredPotholes potholes
       (mkSelected range_all [critical] [] (str "20") []) fc selected clock
     = match filteredPotholes potholes (mkSelected range_all [] [] [] [])
               fc selected clock with
       | Normal l => Normal (filter wanted l)
       | Throw => Throw
       end ∧
     filteredPotholes potholes
       (mkSelected range_all [critical] [] (str "20") []) None selected clock
     = Normal (filter wanted potholes)).
Proof.
  split_and!.
  - apply keep_true.
  - intros p bound Hnan. split; [by apply ltb_nan_r|by apply ltb_nan_l].
  - intros p bound Hp Hb. split; by apply ltb_false_iff_leb.
  - intros H20 potholes fc selected clock wanted.
    assert (∀ fc' active now p,
              keep (mkSelected range_all [critical] [] (str "20") []) fc' active
                now p = true ↔
              keep (mkSelected range_all [] [] [] []) fc' active now p = true
              ∧ wanted p) as Hkeep.
    { intros fc' active now p. rewrite !keep_true.
      cbn [dateRange severities statuses sizeMin sizeMax]. rewrite H20.
      unfold wanted. rewrite list_elem_of_singleton.
      split.
      - intros (? & ? & ? & [?|?] & _ & [?|?] & _); try done.
        split_and!; auto.
      - intros ((? & ? & ? & _) & ? & ?). split_and!; auto. }
    assert (∀ fc', filteredPotholes potholes
              (mkSelected range_all [critical] [] (str "20") []) fc' selected
              clock
            = match filteredPotholes potholes (mkSelected range_all [] [] [] [])
                      fc' selected clock with
              | Normal l => Normal (filter wanted l)
              | Throw => Throw
              end) as Hcomp.
    { intros fc'. unfold Filter.filteredPotholes.
      destruct (activeNeighborhoods fc' selected) as [active|]; [|done].
      f_equal.
      rewrite (list_filter_iff _
                 (λ ip, keep (mkSelected range_all [] [] [] []) fc' active
                          (clock ip.1) ip.2 = true ∧ wanted ip.2)).
      2:{ intros [i p]. apply Hkeep. }
      etrans;
        [exact (indexed_filter_and
                  (λ ip, keep (mkSelected range_all [] [] [] []) fc' active
                           (clock ip.1) ip.2 = true) wanted _)|].
      do 3 f_equal.
      apply list_filter_iff. by intros [i p]. }
    split; [apply Hcomp|].
    rewrite Hcomp. unfold Filter.filteredPotholes.
    rewrite activeNeighborhoods_None. f_equal. f_equal.
    apply indexed_filter_all. intros [i p].
    apply keep_true; split_and!; try (by left); done.
Qed.

End Runtime.
End FilterFacts.

(** ** Strings *)

Module TextFacts.

Definition blank (s : jsstring) : Prop := Forall (λ c, isWhiteSpace c = true) s.

Lemma trimStart_blank s : blank s → trimStart s = [].
Proof. induction 1 as [|c s Hc _ IH]; [done|]. cbn. by rewrite Hc. Qed.

Lemma trim_blank s : blank s → trim s = [].
Proof. intros H. unfold trim. by rewrite trimStart_blank. Qed.

Lemma stripMarks_blank s : blank s → blank (stripMarks s).
Proof.
  unfold blank, stripMarks. rewrite !Forall_forall.
  intros H c [_ Hc]%list_elem_of_filter. by apply H.
Qed.

Lemma startsWith_refl s : startsWith s s = true.
Proof. induction s as [|c s IH]; [done|]. cbn. by rewrite bool_decide_true. Qed.

Lemma includes_refl s : includes s s = true.
Proof. destruct s; cbn; [done|]. by rewrite bool_decide_true, startsWith_refl. Qed.

Section Normalize.

Variables toLowerCase nfkd : jsstring → jsstring.

(** Lower-casing and compatibility decomposition turn white space into
    white space. *)
Hypothesis toLowerCase_blank : ∀ s, blank s → blank (toLowerCase s).
Hypothesis nfkd_blank : ∀ s, blank s → blank (nfkd s).

Lemma normalize_blank s : blank s → normalize toLowerCase nfkd s = [].
Proof.
  intros H. unfold normalize.
  by apply trim_blank, stripMarks_blank, nfkd_blank, toLowerCase_blank.
Qed.

End Normalize.

Lemma toLowerCase_ascii_blank s : blank s → blank (Samples.toLowerCase_ascii s).
Proof.
  unfold blank, Samples.toLowerCase_ascii. rewrite Forall_fmap.
  intros H. eapply Forall_impl; [exact H|]. intros c Hc. cbn.
  destruct ((65 <=? c)%N && (c <=? 90)%N) eqn:E; [|done].
  apply andb_true_iff in E as [H1%N.leb_le H2%N.leb_le].
  exfalso. revert Hc. unfold isWhiteSpace.
  rewrite orb_true_iff, bool_decide_eq_true, andb_true_iff, !N.leb_le.
  rewrite !elem_of_cons, elem_of_nil. lia.
Qed.

Lemma nfkd_ascii_blank s : blank s → blank (Samples.nfkd_ascii s).
Proof. done. Qed.

End TextFacts.

(** ** The component *)

Module AppFacts.
Import Generator Boundary Filter App TextFacts.

(** *** The selection rule *)

Lemma sole_member (prev : gset nat) (idx : nat) :
  base.size prev = 1 ∧ idx ∈ prev ↔ prev = {[ idx ]}.
Proof.
  split.
  - intros [(x & Hx)%size_1_elem_of Hin].
    apply leibniz_equiv in Hx. subst prev.
    apply elem_of_singleton in Hin. by subst.
  - intros ->. split; [apply size_singleton|by apply elem_of_singleton].
Qed.

Lemma toggle_sole idx : onEachNeighborhood idx {[ idx ]} = ∅.
Proof.
  unfold onEachNeighborhood.
  rewrite bool_decide_true by apply size_singleton.
  by rewrite bool_decide_true by by apply elem_of_singleton.
Qed.

Lemma toggle_other prev idx :
  prev ≠ {[ idx ]} → onEachNeighborhood idx prev = {[ idx ]}.
Proof.
  intros Hne. unfold onEachNeighborhood.
  destruct (bool_decide (base.size prev = 1)) eqn:E1; [|done].
  destruct (bool_decide (idx ∈ prev)) eqn:E2; [|done].
  apply bool_decide_eq_true in E1, E2.
  destruct Hne. by apply sole_member.
Qed.

Lemma toggle_empty idx : onEachNeighborhood idx ∅ = {[ idx ]}.
Proof.
  apply toggle_other. intros H.
  assert (idx ∈ (∅ : gset nat)) as Hin by (rewrite H; by apply elem_of_singleton).
  by apply not_elem_of_empty in Hin.
Qed.

Lemma singleton_not_empty (idx : nat) : ({[ idx ]} : gset nat) ≠ ∅.
Proof.
  intros H. assert (idx ∈ (∅ : gset nat)) as Hin
    by (rewrite <-H; by apply elem_of_singleton).
  by apply not_elem_of_empty in Hin.
Qed.

(** C7, as the code has it: selecting the sole member of the selection
    clears it, selecting in any other state selects that boundary alone;
    the same action twice gives the empty selection from every state but
    the one where the boundary is the sole member, where it gives that
    singleton back.  The map click and the checkbox follow the same
    rule. *)
Theorem selection_toggle (prev : gset nat) (idx : nat) :
  checkbox_onChange idx prev = onEachNeighborhood idx prev ∧
  (prev = {[ idx ]} → onEachNeighborhood idx prev = ∅) ∧
  (prev ≠ {[ idx ]} → onEachNeighborhood idx prev = {[ idx ]}) ∧
  (prev ≠ {[ idx ]} →
   onEachNeighborhood idx (onEachNeighborhood idx prev) = ∅) ∧
  (prev = {[ idx ]} →
   onEachNeighborhood idx (onEachNeighborhood idx prev) = {[ idx ]}).
Proof.
  split_and!.
  - reflexivity.
  - intros ->. apply toggle_sole.
  - apply toggle_other.
  - intros H. rewrite (toggle_other _ _ H). apply toggle_sole.
  - intros ->. rewrite toggle_sole. apply toggle_empty.
Qed.

(** C7, as stated, fails: twice from the state where boundary 3 is the
    sole member does not give the empty selection. *)
Lemma toggle_twice_from_sole_member :
  onEachNeighborhood 3 (onEachNeighborhood 3 {[ 3 ]}) ≠ ∅.
Proof. rewrite toggle_sole, toggle_empty. apply singleton_not_empty. Qed.

Section Handlers.

Variable ToString : JsVal → jsstring.
Variables toLowerCase nfkd : jsstring → jsstring.
Variable boundsValid : Feature → bool.

Local Abbreviation handleSearch :=
  (handleSearch ToString toLowerCase nfkd boundsValid).
Local Abbreviation step := (step ToString toLowerCase nfkd boundsValid).
Local Abbreviation reachable :=
  (reachable ToString toLowerCase nfkd boundsValid).
Local Abbreviation selectMatch := (selectMatch boundsValid).

(** *** What each handler writes to the selection *)

Definition at_most_one (s : gset nat) : Prop := s = ∅ ∨ ∃ i, s = {[ i ]}.

Lemma at_most_one_size s : at_most_one s → base.size s ≤ 1.
Proof.
  intros [->|[i ->]]; [rewrite size_empty|rewrite size_singleton]; lia.
Qed.

Lemma toggle_at_most_one idx prev : at_most_one (onEachNeighborhood idx prev).
Proof.
  unfold onEachNeighborhood. destruct (_ && _); [by left|right; eauto].
Qed.

Lemma selectMatch_selection n st :
  selectedNeighborhoodIds (selectMatch n st) = {[ idx n ]}.
Proof.
  unfold App.selectMatch.
  destruct (map st), (features_of (neighborhoodsFC st) !! idx n); try done.
  by destruct (boundsValid _).
Qed.

Lemma geocode_selection st resp :
  selectedNeighborhoodIds (geocode st resp).1 = selectedNeighborhoodIds st ∨
  selectedNeighborhoodIds (geocode st resp).1 = ∅.
Proof.
  unfold geocode. destruct (wellFormed _); cbn [negb]; [|by left].
  destruct resp as [|[] [[|[|[|lat lon] ?]]|]]; try by left.
  destruct (map st); [|by left].
  destruct (_ && _); [by right|by left].
Qed.

Lemma handleSearch_selection st resp :
  selectedNeighborhoodIds (handleSearch st resp).1 = selectedNeighborhoodIds st
  ∨ at_most_one (selectedNeighborhoodIds (handleSearch st resp).1).
Proof.
  unfold App.handleSearch. case_bool_decide; [by left|].
  destruct (list_find _ _) as [[? exact]|].
  { right. right. eexists. apply selectMatch_selection. }
  destruct (list_find _ _) as [[? fuzzy]|].
  { right. right. eexists. apply selectMatch_selection. }
  destruct (geocode_selection st resp) as [->| ->]; [by left|right; by left].
Qed.

Lemma step_selection a st :
  selectedNeighborhoodIds (step a st) = selectedNeighborhoodIds st
  ∨ at_most_one (selectedNeighborhoodIds (step a st)).
Proof.
  destruct a; try (by left).
  - right. apply toggle_at_most_one.
  - right. apply toggle_at_most_one.
  - right. by left.
  - apply handleSearch_selection.
Qed.

(** C10: in every reachable state the selection is empty or a singleton. *)
Theorem selection_at_most_one potholes st :
  reachable potholes st →
  at_most_one (selectedNeighborhoodIds st) ∧
  base.size (selectedNeighborhoodIds st) ≤ 1.
Proof.
  intros H. assert (at_most_one (selectedNeighborhoodIds st)) as Hone.
  { induction H as [|a st H IH]; [by left|].
    by destruct (step_selection a st) as [-> |]. }
  split; [done|by apply at_most_one_size].
Qed.

End Handlers.

Lemma selection_at_most_one_witness :
  base.size (selectedNeighborhoodIds
               (Samples.step_sample (NeighborhoodClicked 1)
                  (Samples.step_sample (NeighborhoodChecked 0)
                     (Samples.step_sample (FcLoaded Samples.toronto)
                        (initialState []))))) ≤ 1.
Proof.
  apply (selection_at_most_one Samples.ToString_none Samples.toLowerCase_ascii
           Samples.nfkd_ascii Samples.boundsValid_all []).
  do 3 apply reachable_step. apply reachable_init.
Defined.

Section Draft.

Variable ToString : JsVal → jsstring.
Variables toLowerCase nfkd : jsstring → jsstring.
Variable boundsValid : Feature → bool.
Variable booleanPointInPolygon : float * float → Feature → bool.
Variable Number : jsstring → float.
Variable startOfDay : Z → JS.Date.
Variable daysBefore : Z → Z → JS.Date.
Variable startOfYear : Z → JS.Date.

Local Abbreviation step := (step ToString toLowerCase nfkd boundsValid).
Local Abbreviation rendered :=
  (rendered booleanPointInPolygon Number startOfDay daysBefore startOfYear).

Lemma draft_edit_rendered a st clock :
  isDraftEdit a = true → rendered (step a st) clock = rendered st clock.
Proof. by destruct a. Qed.

(** C8: a draft edit changes [inputs] only: the applied criteria and the
    rendered set stay as they are, also after any number of edits; apply
    copies the draft into the applied criteria; clear resets both to the
    same default. *)
Theorem draft_and_applied :
  (∀ a st clock,
     isDraftEdit a = true →
     rendered (step a st) clock = rendered st clock ∧
     selectedFilters (step a st) = selectedFilters st ∧
     inputs (step a st) = editInputs a (inputs st)) ∧
  (∀ edits st clock,
     Forall (λ a, isDraftEdit a = true) edits →
     rendered (foldr step st edits) clock = rendered st clock) ∧
  (∀ st,
     selectedFilters (applyFilters st)
     = mkSelected (in_dateRange (inputs st)) (in_severities (inputs st))
         (in_statuses (inputs st)) (in_sizeMin (inputs st))
         (in_sizeMax (inputs st)) ∧
     inputs (applyFilters st) = inputs st) ∧
  (∀ st,
     inputs (clearFilters st) = mkInputs range_today [] [] [] [] ∧
     selectedFilters (clearFilters st) = mkSelected range_today [] [] [] []).
Proof.
  split_and!.
  - intros a st clock Ha. by destruct a.
  - intros edits st clock H. induction H as [|a edits Ha _ IH]; [done|].
    cbn [foldr]. by rewrite draft_edit_rendered.
  - done.
  - done.
Qed.

End Draft.

Section Search.

Variable ToString : JsVal → jsstring.
Variables toLowerCase nfkd : jsstring → jsstring.
Variable boundsValid : Feature → bool.

Local Abbreviation handleSearch :=
  (handleSearch ToString toLowerCase nfkd boundsValid).
Local Abbreviation selectMatch := (selectMatch boundsValid).
Local Abbreviation neighborhoodIndex :=
  (neighborhoodIndex ToString toLowerCase nfkd).
Local Abbreviation normalize := (normalize toLowerCase nfkd).

(** The normalized boundary names, in index order. *)
Definition names (fc : option GeoJSON) : list jsstring :=
  name <$> neighborhoodIndex fc.

Lemma neighborhoodIndex_lookup fc i n :
  neighborhoodIndex fc !! i = Some n → idx n = i.
Proof.
  unfold Boundary.neighborhoodIndex.
  destruct fc as [[features|]|]; try done.
  rewrite list_lookup_imap. destruct (features !! i); [|done].
  by intros [= <-].
Qed.

Lemma names_features fc :
  names fc = (λ f, normalize (featureName ToString f)) <$> features_of fc.
Proof.
  unfold names, Boundary.neighborhoodIndex, features_of.
  destruct fc as [[features|]|]; try done.
  apply list_eq. intros i.
  rewrite !list_lookup_fmap, list_lookup_imap.
  by destruct (features !! i).
Qed.

Lemma names_lookup fc i nm :
  names fc !! i = Some nm ↔
  ∃ n, neighborhoodIndex fc !! i = Some n ∧ name n = nm.
Proof.
  unfold names. rewrite list_lookup_fmap, fmap_Some.
  split; intros (n & ? & ?); eauto.
Qed.

Lemma selectMatch_state n st :
  ∃ m, selectMatch n st = setMap m (setSelectedNeighborhoodIds {[ idx n ]} st)
       ∧ (m = map st ∨ map st ≠ None ∧ m = Some (FitBounds (idx n))).
Proof.
  unfold App.selectMatch.
  destruct (map st) as [v|] eqn:Hm;
    [destruct (features_of (neighborhoodsFC st) !! idx n) as [f|];
     [destruct (boundsValid f)|]|].
  - exists (Some (FitBounds (idx n))). split; [done|]. by right.
  - exists (Some v). split; [|by left]. destruct st. cbn in *. by subst.
  - exists (Some v). split; [|by left]. destruct st. cbn in *. by subst.
  - exists None. split; [|by left]. destruct st. cbn in *. by subst.
Qed.

(** The first exact match wins. *)
Lemma handleSearch_exact st resp i :
  normalize (searchQuery st) ≠ [] →
  names (neighborhoodsFC st) !! i = Some (normalize (searchQuery st)) →
  (∀ j nm, j < i → names (neighborhoodsFC st) !! j = Some nm →
           nm ≠ normalize (searchQuery st)) →
  ∃ n, idx n = i ∧ handleSearch st resp = (selectMatch n st, []).
Proof.
  intros Hq (n & Hn & Hname)%names_lookup Hfirst.
  unfold App.handleSearch. rewrite bool_decide_false by done.
  destruct (list_find _ _) as [[j m]|] eqn:Hfind.
  - apply list_find_Some in Hfind as (Hj & Hm & Hless).
    destruct (Nat.lt_trichotomy j i) as [Hlt|[->|Hgt]].
    + destruct (Hfirst j (name m) Hlt); [|done].
      apply names_lookup. eauto.
    + exists m. split; [by eapply neighborhoodIndex_lookup|done].
    + by destruct (Hless i n Hn Hgt).
  - apply list_find_None in Hfind.
    rewrite Forall_forall in Hfind. destruct (Hfind n); [|done].
    apply list_elem_of_lookup. eauto.
Qed.

(** Without an exact match, the first name that contains the query wins. *)
Lemma handleSearch_fuzzy st resp i nm :
  normalize (searchQuery st) ≠ [] →
  (∀ nm', nm' ∈ names (neighborhoodsFC st) →
          nm' ≠ normalize (searchQuery st)) →
  names (neighborhoodsFC st) !! i = Some nm →
  includes nm (normalize (searchQuery st)) = true →
  (∀ j nm', j < i → names (neighborhoodsFC st) !! j = Some nm' →
            includes nm' (normalize (searchQuery st)) = false) →
  ∃ n, idx n = i ∧ handleSearch st resp = (selectMatch n st, []).
Proof.
  intros Hq Hnoexact (n & Hn & Hname)%names_lookup Hinc Hfirst.
  unfold App.handleSearch. rewrite bool_decide_false by done.
  destruct (list_find (λ n, name n = _) _) as [[j m]|] eqn:Hexact.
  { apply list_find_Some in Hexact as (Hj & Hm & _).
    destruct (Hnoexact (name m)); [|done].
    apply list_elem_of_lookup. exists j. apply names_lookup. eauto. }
  destruct (list_find (λ n, includes (name n) _ = true) _) as [[j m]|]
    eqn:Hfind.
  - apply list_find_Some in Hfind as (Hj & Hm & Hless).
    destruct (Nat.lt_trichotomy j i) as [Hlt|[->|Hgt]].
    + assert (includes (name m) (normalize (searchQuery st)) = false) as Hf.
      { apply (Hfirst j); [done|]. apply names_lookup. eauto. }
      cbn beta in Hm. congruence.
    + exists m. split; [by eapply neighborhoodIndex_lookup|done].
    + destruct (Hless i n Hn Hgt). cbn beta. by rewrite Hname.
  - apply list_find_None in Hfind.
    rewrite Forall_forall in Hfind. destruct (Hfind n).
    + apply list_elem_of_lookup. eauto.
    + cbn beta. by rewrite Hname.
Qed.

(** Without any match, step 3 runs. *)
Lemma handleSearch_fallback st resp :
  normalize (searchQuery st) ≠ [] →
  (∀ nm, nm ∈ names (neighborhoodsFC st) →
         includes nm (normalize (searchQuery st)) = false) →
  handleSearch st resp = geocode st resp.
Proof.
  intros Hq Hnone.
  assert (∀ n, n ∈ neighborhoodIndex (neighborhoodsFC st) →
               includes (name n) (normalize (searchQuery st)) = false) as Hn.
  { intros n Hin. apply Hnone. unfold names. by apply list_elem_of_fmap_2. }
  unfold App.handleSearch. rewrite bool_decide_false by done.
  destruct (list_find (λ n, name n = _) _) as [[j m]|] eqn:Hexact.
  { apply list_find_Some in Hexact as (Hj & Hm & _).
    assert (m ∈ neighborhoodIndex (neighborhoodsFC st)) as Hin
      by (apply list_elem_of_lookup; eauto).
    apply Hn in Hin. by rewrite Hm, includes_refl in Hin. }
  destruct (list_find (λ n, includes (name n) _ = true) _) as [[j m]|]
    eqn:Hfind; [|done].
  apply list_find_Some in Hfind as (Hj & Hm & _).
  assert (m ∈ neighborhoodIndex (neighborhoodsFC st)) as Hin
    by (apply list_elem_of_lookup; eauto).
  apply Hn in Hin. cbn beta in Hm. congruence.
Qed.

End Search.

(** The outcomes of the geocoding request that the [catch] block handles. *)
Definition failed (resp : Response) : bool :=
  match resp with
  | NetworkError | Http false _ | Http true None
  | Http true (Some (Array (Nullish :: _))) => true
  | _ => false
  end.

Definition isFetch (e : Event) : bool :=
  match e with Fetch _ => true | ConsoleError => false end.

Section Resolver.

Variable ToString : JsVal → jsstring.
Variables toLowerCase nfkd : jsstring → jsstring.
Variable boundsValid : Feature → bool.

Local Abbreviation handleSearch :=
  (handleSearch ToString toLowerCase nfkd boundsValid).
Local Abbreviation names := (names ToString toLowerCase nfkd).
Local Abbreviation normalize := (normalize toLowerCase nfkd).

(** C4: an empty or white-space query changes nothing and calls nothing;
    otherwise the first boundary whose normalized name equals the
    normalized query is selected alone; failing that, the first whose name
    contains it; failing that, step 3 runs.  A name match makes no
    geocoding request. *)
Theorem search_priority
    (toLowerCase_blank : ∀ s, blank s → blank (toLowerCase s))
    (nfkd_blank : ∀ s, blank s → blank (nfkd s)) st resp :
  let q := normalize (searchQuery st) in
  let names := names (neighborhoodsFC st) in
  (blank (searchQuery st) → handleSearch st resp = (st, [])) ∧
  (q = [] → handleSearch st resp = (st, [])) ∧
  (q ≠ [] →
   ∀ i, names !! i = Some q →
        (∀ j nm, j < i → names !! j = Some nm → nm ≠ q) →
        ∃ m, handleSearch st resp
             = (setMap m (setSelectedNeighborhoodIds {[ i ]} st), []) ∧
             (m = map st ∨ map st ≠ None ∧ m = Some (FitBounds i))) ∧
  (q ≠ [] → (∀ nm, nm ∈ names → nm ≠ q) →
   ∀ i nm, names !! i = Some nm → includes nm q = true →
           (∀ j nm', j < i → names !! j = Some nm' → includes nm' q = false) →
           ∃ m, handleSearch st resp
                = (setMap m (setSelectedNeighborhoodIds {[ i ]} st), []) ∧
                (m = map st ∨ map st ≠ None ∧ m = Some (FitBounds i))) ∧
  (q ≠ [] → (∀ nm, nm ∈ names → includes nm q = false) →
   handleSearch st resp = geocode st resp ∧
   (wellFormed (searchQuery st) = true →
    head (geocode st resp).2 = Some (Fetch (searchQuery st)))).
Proof.
  intros q nms.
  assert (q = [] → handleSearch st resp = (st, [])) as Hempty.
  { intros Hq. unfold App.handleSearch. by rewrite bool_decide_true. }
  split_and!.
  - intros Hb. apply Hempty. by apply normalize_blank.
  - done.
  - intros Hq i Hi Hfirst.
    destruct (handleSearch_exact ToString toLowerCase nfkd boundsValid st resp
                i Hq Hi Hfirst) as (n & <- & ->).
    destruct (selectMatch_state boundsValid n st) as (m & -> & Hm). eauto.
  - intros Hq Hnoexact i nm Hi Hinc Hfirst.
    destruct (handleSearch_fuzzy ToString toLowerCase nfkd boundsValid st resp
                i nm Hq Hnoexact Hi Hinc Hfirst) as (n & <- & ->).
    destruct (selectMatch_state boundsValid n st) as (m & -> & Hm). eauto.
  - intros Hq Hnone. split; [by apply handleSearch_fallback|].
    intros Hwf. unfold geocode. rewrite Hwf. cbn [negb].
    destruct resp as [|[] [[|[|[|lat lon] ?]]|]]; try done.
    destruct (map st); [|done]. by destruct (_ && _).
Qed.

(** C6, as the code has it: in step 3 a failure (the request, its status,
    its body, or an empty first result) is logged and leaves the state as
    it was, and no second request is made; a first result with a valid
    coordinate clears the selection and flies the map there at zoom 13
    when the map handle is set, and changes nothing when it is not. *)
Theorem geocode_outcomes st resp :
  normalize (searchQuery st) ≠ [] →
  (∀ nm, nm ∈ names (neighborhoodsFC st) →
         includes nm (normalize (searchQuery st)) = false) →
  length (filter (λ e, isFetch e = true) (handleSearch st resp).2) ≤ 1 ∧
  (wellFormed (searchQuery st) = false →
   handleSearch st resp = (st, [ConsoleError])) ∧
  (wellFormed (searchQuery st) = true →
   (failed resp = true →
    handleSearch st resp = (st, [Fetch (searchQuery st); ConsoleError])) ∧
   (∀ lat lon rest,
      resp = Http true (Some (Array (Candidate lat lon :: rest))) →
      JS.isNaN lat = false → JS.isNaN lon = false →
      (map st ≠ None →
       handleSearch st resp
       = (setMap (Some (FlyTo lat lon 13)) (setSelectedNeighborhoodIds ∅ st),
          [Fetch (searchQuery st)])) ∧
      (map st = None →
       handleSearch st resp = (st, [Fetch (searchQuery st)])))).
Proof.
  intros Hq Hnone.
  rewrite (handleSearch_fallback _ _ _ _ _ _ Hq Hnone).
  unfold geocode. split_and!.
  - destruct (wellFormed _); cbn [negb]; [|compute; lia].
    destruct resp as [|[] [[|[|[|lat lon] ?]]|]]; try (compute; lia).
    destruct (map st); [|compute; lia]. destruct (_ && _); compute; lia.
  - by intros ->.
  - intros ->. cbn [negb]. split.
    + by destruct resp as [|[] [[|[|[|lat lon] ?]]|]].
    + intros lat lon rest -> -> ->. cbn [negb andb].
      split; [by destruct (map st)|by intros ->].
Qed.

End Resolver.

(** A session without a map handle: the boundaries load, one is ticked in
    the filter tab, a postal code is typed. *)
Definition typed_postal_code : State :=
  Samples.step_sample (QueryTyped (str "M5V 2T6"))
    (Samples.step_sample (NeighborhoodChecked 1)
       (Samples.step_sample (FcLoaded Samples.toronto) (initialState []))).

Lemma typed_postal_code_no_match :
  normalize Samples.toLowerCase_ascii Samples.nfkd_ascii
    (searchQuery typed_postal_code) ≠ [] ∧
  ∀ nm, nm ∈ names Samples.ToString_none Samples.toLowerCase_ascii
               Samples.nfkd_ascii (neighborhoodsFC typed_postal_code) →
        includes nm (normalize Samples.toLowerCase_ascii Samples.nfkd_ascii
                       (searchQuery typed_postal_code)) = false.
Proof.
  split; [by vm_compute|].
  apply Forall_forall. vm_compute. repeat constructor.
Qed.

Lemma geocode_outcomes_witness :
  Samples.handleSearch_sample typed_postal_code NetworkError
  = (typed_postal_code, [Fetch (str "M5V 2T6"); ConsoleError]).
Proof.
  destruct typed_postal_code_no_match as [Hq Hnone].
  apply (geocode_outcomes Samples.ToString_none Samples.toLowerCase_ascii
           Samples.nfkd_ascii Samples.boundsValid_all typed_postal_code
           NetworkError Hq Hnone); reflexivity.
Defined.

(** C6, as stated, fails: without a map handle a valid coordinate leaves
    the selection as it was. *)
Lemma geocode_success_without_map :
  selectedNeighborhoodIds
    (Samples.handleSearch_sample typed_postal_code
       (Http true (Some (Array [Candidate 43.65 (-79.38)])))).1
  ≠ ∅.
Proof.
  destruct typed_postal_code_no_match as [Hq Hnone].
  unfold Samples.handleSearch_sample.
  rewrite (handleSearch_fallback _ _ _ _ _ _ Hq Hnone).
  change (onEachNeighborhood 1 ∅ ≠ ∅).
  rewrite toggle_empty. apply singleton_not_empty.
Qed.

Lemma search_priority_witness :
  Samples.handleSearch_sample
    (Samples.step_sample (QueryTyped (str "   ")) typed_postal_code)
    NetworkError
  = (Samples.step_sample (QueryTyped (str "   ")) typed_postal_code, []).
Proof.
  apply (search_priority Samples.ToString_none Samples.toLowerCase_ascii
           Samples.nfkd_ascii Samples.boundsValid_all
           toLowerCase_ascii_blank nfkd_ascii_blank).
  vm_compute. repeat constructor.
Defined.

End AppFacts.

(** * Further properties *)

(** ** The generator *)

Module GeneratorMore.
Import Generator JSFacts Samples GeneratorFacts.





(** What a record is drawn with: everything but its id and timestamp. *)
Definition drawn (p : Pothole) : Pothole := set_id 0 (undated p).

(** The ranges the loop body draws from. *)
Definition in_range (p : Pothole) : bool :=
  bool_decide (color p = severityColors (severity p))
  && (10 <=? size p)%float && (size p <=? 49)%float
  && (JS.Math_floor (size p) =? size p)%float
  && (torontoCenter_lat - 0.075 <=? lat p)%float
  && (lat p <=? torontoCenter_lat + 0.075)%float
  && (torontoCenter_lng - 0.1 <=? lng p)%float
  && (lng p <=? torontoCenter_lng + 0.1)%float.

Lemma candidate_drawn now k s :
  drawn <$> (candidate now k s).1 = drawn <$> (candidate 0 0 s).1.
Proof.
  run_rand. cbn [fst].
  destruct (JS.array_get SEVERITIES _); [|done].
  destruct (JS.array_get STATUSES _); done.
Qed.

Lemma ranges_table_int :
  all_from (λ k, from_option in_range false (candidate_int 0 0 k)) 4000 0
  = true.
Proof. vm_compute. reflexivity. Qed.

Lemma ranges_table :
  forallb (λ k, from_option in_range false (candidate 0 0 (seed_at k)).1)
    (seq 0 maxAttempts) = true.
Proof.
  apply forallb_forall. intros k [_ Hk]%in_seq.
  change (0 + maxAttempts) with 4000 in Hk.
  rewrite candidate_int_spec by exact Hk.
  by apply (all_from_attempts
              (λ k, from_option in_range false (candidate_int 0 0 k))
              k ranges_table_int).
Qed.

Lemma candidate_in_range now j k p :
  k < maxAttempts → (candidate now j (seed_at k)).1 = Some p →
  in_range p = true.
Proof.
  intros Hk Hp.
  pose proof ranges_table as H. rewrite forallb_forall in H.
  specialize (H k). rewrite in_seq in H. specialize (H ltac:(lia)).
  pose proof (candidate_drawn now j (seed_at k)) as Hd. rewrite Hp in Hd.
  destruct (candidate 0 0 (seed_at k)).1 as [c|]; [|done].
  cbn [fmap option_fmap option_map from_option] in Hd, H.
  assert (drawn p = drawn c) as Hpc by congruence.
  change (in_range (drawn p) = true). rewrite Hpc. exact H.
Qed.

Section Loop.

Variable turf_distance : float * float → float * float → float.
Variable Date_now : nat → Z.

Local Abbreviation body := (loop_body turf_distance Date_now).

Definition all_in_range (st : Loop) : Prop :=
  on_track st ∧ Forall (λ p, in_range p = true) (items st).

Lemma all_in_range_step st st' :
  all_in_range st → loop_test st = true → body st = Some st' →
  all_in_range st'.
Proof.
  intros [Hs Hall] [_ Hlt]%loop_test_true Hb.
  split; [by eapply on_track_step|].
  apply loop_body_Some in Hb as (cand & Hc & _ & _ & ->).
  destruct (existsWithinMeters _ _ _ _); [done|].
  apply Forall_app. split; [done|]. apply Forall_singleton.
  rewrite Hs in Hc. by eapply candidate_in_range.
Qed.

Lemma generate_all_in_range st :
  generate turf_distance Date_now = Some st →
  Forall (λ p, in_range p = true) (items st).
Proof.
  intros H.
  refine (proj2 (proj1 (while_loop_rule _ _ all_in_range _ _ _ _ _ H))).
  - apply all_in_range_step.
  - split; [reflexivity|constructor].
Qed.

(** The first candidate is always accepted, and stays first. *)
Definition first_kept (st : Loop) : Prop :=
  (attempts st = 0 ∧ items st = []) ∨
  head (items st) = (candidate (Date_now 1) 1 12345%Z).1 ∧ items st ≠ [].

Lemma first_kept_step st st' :
  first_kept st ∧ on_track st → loop_test st = true → body st = Some st' →
  first_kept st' ∧ on_track st'.
Proof.
  intros [Hf Hs] _ Hb. split; [|by eapply on_track_step].
  apply loop_body_Some in Hb as (cand & Hc & _ & _ & Hi').
  unfold first_kept. rewrite Hi'.
  destruct Hf as [[Ha Hi]|[Hh Hne]].
  - right. rewrite Hi. rewrite Hs, Ha in Hc.
    change (seed_at 0) with 12345%Z in Hc. rewrite Hc.
    split; [reflexivity|discriminate].
  - right. destruct (existsWithinMeters _ _ _ _); [exact (conj Hh Hne)|].
    destruct (items st) as [|p l]; [by destruct Hne|].
    split; [exact Hh|discriminate].
Qed.

Lemma generate_first_kept st :
  generate turf_distance Date_now = Some st →
  head (items st) = (candidate (Date_now 1) 1 12345%Z).1 ∧ items st ≠ [].
Proof.
  intros H.
  assert (first_kept (mkLoop 12345 0 []) ∧ on_track (mkLoop 12345 0 []))
    as Hinit by (split; [left; split; reflexivity|reflexivity]).
  destruct (while_loop_rule _ _ (λ st, first_kept st ∧ on_track st)
              first_kept_step _ _ _ Hinit H)
    as [[[[Ha Hi]|Hf] _] Hstop]; [|exact Hf].
  apply loop_test_false in Hstop. rewrite Ha, Hi, maxAttempts_eq in Hstop.
  unfold targetCount in Hstop. cbn [length] in Hstop. lia.
Qed.

End Loop.

(** Every record of a generated set has its severity's colour, an integer
    size from 10 to 49, and a position within 0.075 degrees of latitude and
    0.1 degrees of longitude of the centre. *)
Theorem generated_records_in_range turf_distance Date_now potholes p :
  buildInitialPotholes turf_distance Date_now = Some potholes →
  p ∈ potholes →
  color p = severityColors (severity p) ∧
  (10 <=? size p)%float = true ∧ (size p <=? 49)%float = true ∧
  (JS.Math_floor (size p) =? size p)%float = true ∧
  (torontoCenter_lat - 0.075 <=? lat p)%float = true ∧
  (lat p <=? torontoCenter_lat + 0.075)%float = true ∧
  (torontoCenter_lng - 0.1 <=? lng p)%float = true ∧
  (lng p <=? torontoCenter_lng + 0.1)%float = true.
Proof.
  unfold buildInitialPotholes.
  destruct (generate _ _) as [st|] eqn:Hg; [|done]. cbn [mbind option_bind].
  intros [= <-] (i & q & -> & Hq)%elem_of_lookup_imap.
  pose proof (generate_all_in_range _ _ _ Hg) as Hall.
  rewrite Forall_forall in Hall.
  assert (in_range q = true) as Hr
    by (apply Hall, list_elem_of_lookup; eauto).
  change (in_range (set_id i q)) with (in_range q) in *.
  unfold in_range in Hr. rewrite !andb_true_iff, bool_decide_eq_true in Hr.
  cbn [set_id color severity size lat lng]. tauto.
Qed.

Lemma generated_records_in_range_witness :
  ∃ potholes p,
    buildInitialPotholes far_apart (clock_at 1700000000000) = Some potholes ∧
    potholes !! 5 = Some p ∧
    color p = severityColors (severity p) ∧
    (10 <=? size p)%float = true ∧ (size p <=? 49)%float = true ∧
    (JS.Math_floor (size p) =? size p)%float = true ∧
    (torontoCenter_lat - 0.075 <=? lat p)%float = true ∧
    (lat p <=? torontoCenter_lat + 0.075)%float = true ∧
    (torontoCenter_lng - 0.1 <=? lng p)%float = true ∧
    (lng p <=? torontoCenter_lng + 0.1)%float = true.
Proof.
  eexists _, _. split; [vm_compute; reflexivity|].
  split; [reflexivity|].
  eapply (generated_records_in_range far_apart (clock_at 1700000000000));
    [vm_compute; reflexivity|].
  apply list_elem_of_lookup. exists 5. reflexivity.
Defined.

(** The generated set is never empty: the first candidate is always
    accepted and is the first record (id 0), for every distance function. *)
Theorem generator_keeps_first_candidate turf_distance Date_now :
  ∃ first rest,
    (candidate (Date_now 1) 1 12345%Z).1 = Some first ∧
    buildInitialPotholes turf_distance Date_now
    = Some (set_id 0 first :: rest).
Proof.
  destruct (generate_terminates turf_distance Date_now) as [st Hg].
  destruct (generate_first_kept _ _ _ Hg) as [Hh Hne].
  destruct (items st) as [|p l] eqn:Hi; [by destruct Hne|].
  exists p, (imap (λ i, set_id (S i)) l). split; [symmetry; exact Hh|].
  unfold buildInitialPotholes. rewrite Hg. cbn [mbind option_bind].
  rewrite Hi. reflexivity.
Qed.

Lemma mul_nan_l x y : JS.isNaN x = true → JS.isNaN (x * y)%float = true.
Proof.
  rewrite !isNaN_true, FloatAxioms.mul_spec. by intros ->.
Qed.

(** A distance that is not a number is never "within": such a candidate is
    not rejected for it; the same holds when the limit is not a number. *)
Theorem withinMeters_nan turf_distance a b meters :
  JS.isNaN (turf_distance (lng a, lat a) (lng b, lat b)) = true
  ∨ JS.isNaN meters = true →
  withinMeters turf_distance a b meters = false.
Proof.
  unfold withinMeters. intros [H|H].
  - by apply ltb_nan_l, mul_nan_l.
  - by apply ltb_nan_r.
Qed.

Lemma withinMeters_nan_witness :
  withinMeters (λ _ _, nan) (mkPothole 0 43.65 (-79.4) low pending [] 10 None)
    (mkPothole 1 43.65 (-79.4) low pending [] 10 None) 10 = false.
Proof. apply withinMeters_nan. left. reflexivity. Defined.

End GeneratorMore.

(** ** Strings *)

Module TextMore.
Import TextFacts.

Lemma trimStart_split s :
  ∃ pre, s = pre ++ trimStart s ∧ blank pre.
Proof.
  induction s as [|c s (pre & Hs & Hpre)].
  { exists []. split; [done|constructor]. }
  cbn. destruct (isWhiteSpace c) eqn:Hc.
  - exists (c :: pre). split; [by rewrite <-app_comm_cons, <-Hs|].
    by constructor.
  - exists []. split; [done|constructor].
Qed.

Lemma trimStart_head s c :
  head (trimStart s) = Some c → isWhiteSpace c = false.
Proof.
  induction s as [|d s IH]; [done|]. cbn.
  destruct (isWhiteSpace d) eqn:Hd; [done|]. by intros [= <-].
Qed.

Lemma trimEnd_split s :
  ∃ post, s = trimEnd s ++ post ∧ blank post.
Proof.
  unfold trimEnd. destruct (trimStart_split (reverse s)) as (pre & Hs & Hpre).
  exists (reverse pre). split.
  - by rewrite <-reverse_app, <-Hs, reverse_involutive.
  - unfold blank in *. by apply Forall_reverse.
Qed.

Lemma trimEnd_last s c :
  last (trimEnd s) = Some c → isWhiteSpace c = false.
Proof.
  unfold trimEnd. rewrite last_reverse. apply trimStart_head.
Qed.

Lemma trimEnd_head s c :
  head (trimEnd s) = Some c → head s = Some c.
Proof.
  destruct (trimEnd_split s) as (post & Hs & _).
  destruct (trimEnd s) as [|d t]; [done|].
  intros [= <-]. by rewrite Hs.
Qed.

Lemma trim_split s :
  ∃ pre post, s = pre ++ trim s ++ post ∧ blank pre ∧ blank post.
Proof.
  destruct (trimStart_split s) as (pre & Hs & Hpre).
  destruct (trimEnd_split (trimStart s)) as (post & Ht & Hpost).
  exists pre, post. unfold trim. by rewrite <-Ht.
Qed.

(** [trim] removes white space at both ends and nothing else. *)
Lemma trim_ends s c :
  (head (trim s) = Some c → isWhiteSpace c = false) ∧
  (last (trim s) = Some c → isWhiteSpace c = false).
Proof.
  unfold trim. split.
  - intros H%trimEnd_head. by eapply trimStart_head.
  - apply trimEnd_last.
Qed.

Lemma startsWith_true s q : startsWith s q = true ↔ ∃ post, s = q ++ post.
Proof.
  revert s. induction q as [|c q IH]; intros s.
  - destruct s; cbn; (split; [intros _; by eexists|done]).
  - destruct s as [|d s]; cbn.
    + split; [done|]. by intros (post & ?).
    + rewrite andb_true_iff, bool_decide_eq_true, IH. split.
      * intros (-> & post & ->). by exists post.
      * intros (post & [= -> ->]). eauto.
Qed.

(** [s.includes(q)]: [q] occurs in [s] as a contiguous run of code
    units. *)
Theorem includes_substring s q :
  includes s q = true ↔ ∃ pre post, s = pre ++ q ++ post.
Proof.
  induction s as [|d s IH].
  - cbn [includes]. rewrite orb_false_r, startsWith_true. split.
    + intros (post & ->). by exists [], post.
    + intros (pre & post & H). symmetry in H.
      apply app_eq_nil in H as [-> H]. eauto.
  - cbn [includes]. rewrite orb_true_iff, startsWith_true, IH. split.
    + intros [(post & ->)|(pre & post & ->)].
      * by exists [], post.
      * by exists (d :: pre), post.
    + intros ([|c pre] & post & H).
      * left. by exists post.
      * injection H as -> ->. right. eauto.
Qed.

Section Normalize.

Variables toLowerCase nfkd : jsstring → jsstring.

(** [normalize] returns a string without the combining marks U+0300 to
    U+036F that neither starts nor ends with white space, whatever the
    runtime's lower-casing and decomposition do. *)
Theorem normalize_clean s :
  Forall (λ c, isCombiningMark c = false) (normalize toLowerCase nfkd s) ∧
  (∀ c, head (normalize toLowerCase nfkd s) = Some c → isWhiteSpace c = false) ∧
  (∀ c, last (normalize toLowerCase nfkd s) = Some c → isWhiteSpace c = false).
Proof.
  unfold normalize. split_and!.
  - destruct (trim_split (stripMarks (nfkd (toLowerCase s))))
      as (pre & post & Hs & _).
    assert (Forall (λ c, isCombiningMark c = false)
              (stripMarks (nfkd (toLowerCase s)))) as H.
    { apply Forall_forall. by intros c [? _]%list_elem_of_filter. }
    rewrite Hs, !Forall_app in H. tauto.
  - intros c. apply trim_ends.
  - intros c. apply trim_ends.
Qed.

End Normalize.

End TextMore.

(** ** Boundary names *)

Module BoundaryMore.
Import Boundary TextFacts.

Section Names.

Variable ToString : JsVal → jsstring.

Local Abbreviation featureName := (featureName ToString).
Local Abbreviation String_ := (String_ ToString).

(** [featureName]: the first key of the priority list whose value is truthy
    names the feature (a missing key, an empty string, 0, null and false
    are skipped); a string value is returned as it is; without such a key
    the name is "Area" followed by the feature id, and just "Area" when
    the id is missing too. *)
Theorem featureName_priority (f : Feature) :
  let props := default ∅ (properties f) in
  (∀ i k, keys !! i = Some k → truthy (prop props k) = true →
          (∀ j k', j < i → keys !! j = Some k' →
                   truthy (prop props k') = false) →
          featureName f = String_ (prop props k)) ∧
  (∀ i k s, keys !! i = Some k → props !! k = Some (JString s) → s ≠ [] →
            (∀ j k', j < i → keys !! j = Some k' →
                     truthy (prop props k') = false) →
            featureName f = s) ∧
  ((∀ k, k ∈ keys → truthy (prop props k) = false) →
   featureName f = trim (str "Area " ++ String_ (id_or_empty (fid f))) ∧
   (fid f = JUndefined ∨ fid f = JNull → featureName f = str "Area")).
Proof.
  intros props.
  assert (∀ i k, keys !! i = Some k → truthy (prop props k) = true →
            (∀ j k', j < i → keys !! j = Some k' →
                     truthy (prop props k') = false) →
            featureName f = String_ (prop props k)) as Hfirst.
  { intros i k Hk Ht Hless. unfold Boundary.featureName. fold props.
    destruct (list_find _ keys) as [[j k']|] eqn:Hfind.
    - apply list_find_Some in Hfind as (Hj & Ht' & Hless').
      destruct (Nat.lt_trichotomy j i) as [Hlt|[->|Hgt]].
      + by rewrite (Hless j k' Hlt Hj) in Ht'.
      + by simplify_eq.
      + by destruct (Hless' i k Hk Hgt).
    - apply list_find_None in Hfind. rewrite Forall_forall in Hfind.
      destruct (Hfind k); [|done]. apply list_elem_of_lookup. eauto. }
  assert ((∀ k, k ∈ keys → truthy (prop props k) = false) →
          featureName f = trim (str "Area " ++ String_ (id_or_empty (fid f))))
    as Hnone.
  { intros Hall. unfold Boundary.featureName. fold props.
    destruct (list_find _ keys) as [[j k']|] eqn:Hfind; [|done].
    apply list_find_Some in Hfind as (Hj & Ht' & _).
    rewrite Hall in Ht'; [done|]. apply list_elem_of_lookup. eauto. }
  split_and!.
  - exact Hfirst.
  - intros i k s Hk Hs Hne Hless.
    assert (prop props k = JString s) as Hp by (unfold prop; by rewrite Hs).
    rewrite (Hfirst i k Hk); [by rewrite Hp| |done].
    rewrite Hp. cbn. by rewrite bool_decide_false.
  - intros Hall. split; [by apply Hnone|].
    intros Hid. rewrite Hnone by done.
    by destruct Hid as [-> | ->].
Qed.

End Names.

Lemma featureName_priority_sample :
  featureName Samples.ToString_none Samples.kensington
  = str "Kensington Market".
Proof. by vm_compute. Qed.

End BoundaryMore.

(** ** The filter *)

Module FilterMore.
Import Generator Boundary Filter JSFacts FilterFacts Samples AppFacts.

Lemma filter_sublist_impl {A} (P Q : A → Prop) `{∀ x, Decision (P x)}
    `{∀ x, Decision (Q x)} (l : list A) :
  (∀ x, P x → Q x) → sublist (filter P l) (filter Q l).
Proof.
  intros HPQ. induction l as [|x l IH]; [done|].
  rewrite !filter_cons. destruct (decide (P x)) as [HP|HP].
  - rewrite decide_True by auto. by constructor.
  - destruct (decide (Q x)); [by constructor|done].
Qed.

Lemma imap_pair_snd {A} (l : list A) : (imap pair l).*2 = l.
Proof.
  apply list_eq. intros i.
  rewrite list_lookup_fmap, list_lookup_imap. by destruct (l !! i).
Qed.

Lemma filter_snd {A} (K : A → Prop) `{∀ x, Decision (K x)}
    (L : list (nat * A)) :
  (filter (λ ip : nat * A, K ip.2) L).*2 = filter K (L.*2).
Proof.
  induction L as [|[i x] L IH]; [done|].
  rewrite filter_cons, fmap_cons, filter_cons. cbn [snd].
  destruct (decide (K x)); [by rewrite fmap_cons, IH|done].
Qed.

Lemma indexed_filter_const {A} (K : A → Prop) `{∀ x, Decision (K x)}
    (l : list A) :
  (filter (λ ip : nat * A, K ip.2) (imap pair l)).*2 = filter K l.
Proof. by rewrite filter_snd, imap_pair_snd. Qed.

Lemma filter_idemp {A} (K : A → Prop) `{∀ x, Decision (K x)} (l : list A) :
  filter K (filter K l) = filter K l.
Proof.
  induction l as [|x l IH]; [done|].
  rewrite filter_cons. destruct (decide (K x)); [|done].
  by rewrite filter_cons, decide_True, IH.
Qed.

Section Runtime.

Variable booleanPointInPolygon : float * float → Feature → bool.
Variable Number : jsstring → float.
Variable startOfDay : Z → JS.Date.
Variable daysBefore : Z → Z → JS.Date.
Variable startOfYear : Z → JS.Date.

Local Abbreviation dateInRange :=
  (dateInRange startOfDay daysBefore startOfYear).
Local Abbreviation keep :=
  (keep booleanPointInPolygon Number startOfDay daysBefore startOfYear).
Local Abbreviation filteredPotholes :=
  (filteredPotholes booleanPointInPolygon Number startOfDay daysBefore
     startOfYear).

Lemma Date_ge_mono t t' th :
  (t ≤ t')%Z → JS.Date_ge (Some t) th = true → JS.Date_ge (Some t') th = true.
Proof.
  destruct th as [y|]; [|done]. cbn. rewrite !Z.leb_le. lia.
Qed.

(** [dateInRange]: the range "all" accepts every date, also an invalid
    one; every other range rejects an invalid date; and a range that
    accepts a date accepts every later one. *)
Theorem dateInRange_edges (now : Z) :
  (∀ date, dateInRange date range_all now = true) ∧
  (∀ r, r ≠ range_all → dateInRange None r now = false) ∧
  (∀ r t t', (t ≤ t')%Z → dateInRange (Some t) r now = true →
             dateInRange (Some t') r now = true).
Proof.
  split_and!.
  - done.
  - by intros [].
  - intros [] t t' Hle; cbn; try done; by apply Date_ge_mono.
Qed.

Lemma activeNeighborhoods_empty fc :
  activeNeighborhoods fc ∅ = Normal None.
Proof. by destruct fc as [[]|]. Qed.


Lemma keep_active_None filters fc active now p :
  keep filters fc active now p = true → keep filters fc None now p = true.
Proof.
  rewrite !keep_true. intros (? & _ & ?). split; [done|]. split; [|done].
  by intros fs [=].
Qed.

(** The filtered set keeps the order of the records and drops some of
    them; a selection only restricts it further. *)
Theorem filtered_is_sublist potholes filters fc selected clock l :
  filteredPotholes potholes filters fc selected clock = Normal l →
  sublist l potholes ∧
  ∃ l0, filteredPotholes potholes filters fc ∅ clock = Normal l0 ∧
        sublist l l0.
Proof.
  unfold Filter.filteredPotholes. rewrite activeNeighborhoods_empty.
  destruct (activeNeighborhoods fc selected) as [active|]; [|done].
  intros [= <-]. split.
  - rewrite <-(imap_pair_snd potholes) at 2.
    apply fmap_sublist, sublist_filter.
  - eexists. split; [done|].
    apply fmap_sublist, filter_sublist_impl.
    intros [i p]. apply keep_active_None.
Qed.

(** With a clock that stands still, filtering the filtered set again
    changes nothing. *)
Theorem filter_idempotent potholes filters fc selected now l :
  filteredPotholes potholes filters fc selected (λ _, now) = Normal l →
  filteredPotholes l filters fc selected (λ _, now) = Normal l.
Proof.
  unfold Filter.filteredPotholes.
  destruct (activeNeighborhoods fc selected) as [active|]; [|done].
  assert (∀ l' : list Pothole,
            (filter (λ '(i, p), keep filters fc active now p = true)
               (imap pair l')).*2
            = filter (λ p, keep filters fc active now p = true) l') as Hc.
  { intros l'.
    rewrite <-(indexed_filter_const
                 (λ p, keep filters fc active now p = true)).
    f_equal. apply list_filter_iff. by intros [i p]. }
  rewrite !Hc. intros [= <-]. by rewrite filter_idemp.
Qed.

(** With a selection, every record shown lies in a selected boundary of
    the collection; a selection of indices the collection does not have
    shows nothing. *)
Theorem selected_boundaries_restrict potholes filters features selected
    clock l :
  filteredPotholes potholes filters (Some (FeatureCollection features))
    selected clock = Normal l →
  selected ≠ ∅ →
  (∀ p, p ∈ l →
        ∃ i f, i ∈ selected ∧ features !! i = Some f ∧
               booleanPointInPolygon (lng p, lat p) f = true) ∧
  ((∀ i, i ∈ selected → length features ≤ i) → l = []).
Proof.
  intros Hl Hne.
  assert (∀ p, p ∈ l →
            ∃ i f, i ∈ selected ∧ features !! i = Some f ∧
                   booleanPointInPolygon (lng p, lat p) f = true) as Hin.
  { intros p Hp.
    apply (elem_of_filteredPotholes _ _ _ _ _ _ _ _ _ _ _ _ Hl) in Hp
      as (j & active & _ & Hact & Hk).
    unfold activeNeighborhoods in Hact.
    rewrite bool_decide_true in Hact.
    2:{ destruct (decide (base.size selected = 0)) as [H0|H0]; [|lia].
        apply size_empty_iff, leibniz_equiv in H0. by destruct Hne. }
    injection Hact as <-.
    apply keep_true in Hk as (_ & Hsel & _).
    destruct (Hsel _ eq_refl) as (f & Hf & Hc).
    apply elem_of_indexed_filter in Hf as (i & Hi & Hs). eauto. }
  split; [done|]. intros Hout. apply elem_of_nil_inv. intros p Hp.
  destruct (Hin p Hp) as (i & f & Hi & Hf & _).
  apply lookup_lt_Some in Hf. specialize (Hout i Hi). lia.
Qed.

End Runtime.

Lemma filtered_is_sublist_witness :
  ∃ l, filteredPotholes_sample two_potholes
         (mkSelected range_all [] [] [] []) toronto {[ 0 ]}
         (clock_at 1700000000000) = Normal l ∧
       sublist l two_potholes ∧
       ∃ l0, filteredPotholes_sample two_potholes
               (mkSelected range_all [] [] [] []) toronto ∅
               (clock_at 1700000000000) = Normal l0 ∧
             sublist l l0.
Proof.
  eexists. split; [vm_compute; reflexivity|].
  apply (filtered_is_sublist west_of_centre Number_sample utc_startOfDay
           utc_daysBefore utc_startOfYear two_potholes
           (mkSelected range_all [] [] [] []) toronto {[ 0 ]}
           (clock_at 1700000000000)).
  vm_compute. reflexivity.
Defined.

Lemma filter_idempotent_witness :
  ∃ l, filteredPotholes_sample two_potholes
         (mkSelected range_last7 [critical] [] (str "20") []) toronto ∅
         (clock_at 1700000000000) = Normal l ∧
       filteredPotholes_sample l
         (mkSelected range_last7 [critical] [] (str "20") []) toronto ∅
         (clock_at 1700000000000) = Normal l.
Proof.
  eexists. split; [vm_compute; reflexivity|].
  apply (filter_idempotent west_of_centre Number_sample utc_startOfDay
           utc_daysBefore utc_startOfYear two_potholes).
  vm_compute. reflexivity.
Defined.

Lemma selected_boundaries_restrict_witness :
  ∃ l, filteredPotholes_sample two_potholes
         (mkSelected range_all [] [] [] [])
         (Some (FeatureCollection [annex; kensington])) {[ 7 ]}
         (clock_at 1700000000000) = Normal l ∧
       l = [].
Proof.
  eexists. split; [vm_compute; reflexivity|].
  eapply (selected_boundaries_restrict west_of_centre Number_sample
            utc_startOfDay utc_daysBefore utc_startOfYear two_potholes
            (mkSelected range_all [] [] [] []) [annex; kensington] {[ 7 ]}
            (clock_at 1700000000000)).
  - vm_compute. reflexivity.
  - apply singleton_not_empty.
  - intros i ->%elem_of_singleton. cbn. lia.
Defined.

End FilterMore.

(** ** The component *)

Module AppMore.
Import Generator Boundary Filter App TextFacts TextMore FilterFacts AppFacts
  FilterMore Samples.

(** *** [toggleSetValue] *)

Section Toggle.

Context {A : Type} `{EqDecision A}.

Lemma filter_ne_id (l : list A) (v : A) : v ∉ l → filter (λ x, x ≠ v) l = l.
Proof.
  induction l as [|x l IH]; [done|].
  rewrite not_elem_of_cons. intros [Hne Hl].
  by rewrite filter_cons, decide_True, IH.
Qed.

Lemma filter_ne_perm (l : list A) (v : A) :
  NoDup l → v ∈ l → filter (λ x, x ≠ v) l ++ [v] ≡ₚ l.
Proof.
  induction 1 as [|x l Hx Hl IH]; [by intros ?%elem_of_nil|].
  rewrite filter_cons. destruct (decide (x ≠ v)) as [Hne|Heq].
  - intros [->|Hv]%elem_of_cons; [done|].
    cbn. constructor. by apply IH.
  - apply dec_stable in Heq as ->. intros _.
    rewrite filter_ne_id by done.
    by rewrite <-Permutation_cons_append.
Qed.

Lemma toggleSetValue_NoDup (set : list A) (value : A) :
  NoDup set → NoDup (toggleSetValue set value).
Proof.
  intros Hnd. unfold toggleSetValue. case_bool_decide as Hin.
  - by apply NoDup_filter.
  - apply NoDup_app. split_and!; [done| |apply NoDup_singleton].
    intros x Hx ->%list_elem_of_singleton. done.
Qed.

(** [toggleSetValue] flips the membership of the value and of nothing
    else, keeps the set free of duplicates, and applied twice gives the
    set back (up to the order of insertion). *)
Theorem toggleSetValue_flips (set : list A) (value : A) :
  (value ∈ toggleSetValue set value ↔ value ∉ set) ∧
  (∀ x, x ≠ value → (x ∈ toggleSetValue set value ↔ x ∈ set)) ∧
  (NoDup set → NoDup (toggleSetValue set value)) ∧
  (NoDup set →
   toggleSetValue (toggleSetValue set value) value ≡ₚ set).
Proof.
  split_and!.
  - unfold toggleSetValue. case_bool_decide as Hin.
    + rewrite list_elem_of_filter. tauto.
    + rewrite elem_of_app, list_elem_of_singleton. tauto.
  - intros x Hx. unfold toggleSetValue. case_bool_decide as Hin.
    + rewrite list_elem_of_filter. tauto.
    + rewrite elem_of_app, list_elem_of_singleton. tauto.
  - apply toggleSetValue_NoDup.
  - intros Hnd. unfold toggleSetValue at 2. case_bool_decide as Hin.
    + unfold toggleSetValue. rewrite bool_decide_false.
      * by apply filter_ne_perm.
      * rewrite list_elem_of_filter. tauto.
    + unfold toggleSetValue. rewrite bool_decide_true.
      * rewrite filter_app, filter_ne_id by done.
        rewrite filter_cons, decide_False by tauto.
        by rewrite filter_nil, app_nil_r.
      * rewrite elem_of_app, list_elem_of_singleton. tauto.
Qed.

End Toggle.

Section Handlers.

Variable ToString : JsVal → jsstring.
Variables toLowerCase nfkd : jsstring → jsstring.
Variable boundsValid : Feature → bool.

Local Abbreviation handleSearch :=
  (handleSearch ToString toLowerCase nfkd boundsValid).
Local Abbreviation step := (step ToString toLowerCase nfkd boundsValid).
Local Abbreviation reachable :=
  (reachable ToString toLowerCase nfkd boundsValid).
Local Abbreviation selectMatch := (selectMatch boundsValid).
Local Abbreviation neighborhoodIndex :=
  (neighborhoodIndex ToString toLowerCase nfkd).
Local Abbreviation normalize := (normalize toLowerCase nfkd).

(** What a handler leaves alone. *)
Definition same_but_selection_and_map (st st' : State) : Prop :=
  activeTab st' = activeTab st ∧ searchQuery st' = searchQuery st ∧
  selectedFilters st' = selectedFilters st ∧ inputs st' = inputs st ∧
  potholes st' = potholes st ∧ neighborhoodsFC st' = neighborhoodsFC st ∧
  (map st = None → map st' = None).

Lemma selectMatch_frame n st : same_but_selection_and_map st (selectMatch n st).
Proof.
  unfold App.selectMatch, same_but_selection_and_map.
  destruct (map st) eqn:Hm;
    [destruct (features_of (neighborhoodsFC st) !! idx n) as [f|];
     [destruct (boundsValid f)|]|];
    cbn; rewrite ?Hm; by split_and!.
Qed.

Lemma geocode_frame st resp :
  same_but_selection_and_map st (geocode st resp).1.
Proof.
  unfold geocode, same_but_selection_and_map.
  destruct (wellFormed _); cbn [negb]; [|by split_and!].
  destruct resp as [|[] [[|[|[|lat lon] ?]]|]]; try (by split_and!).
  destruct (map st) eqn:Hm; [|by split_and!].
  destruct (_ && _); cbn; rewrite ?Hm; by split_and!.
Qed.

Lemma geocode_events st resp : (geocode st resp).2 ≠ [].
Proof.
  unfold geocode. destruct (wellFormed _); cbn [negb]; [|done].
  destruct resp as [|[] [[|[|[|lat lon] ?]]|]]; try done.
  destruct (map st); [|done]. by destruct (_ && _).
Qed.

Lemma handleSearch_same st resp :
  same_but_selection_and_map st (handleSearch st resp).1.
Proof.
  unfold App.handleSearch. case_bool_decide.
  { unfold same_but_selection_and_map. by split_and!. }
  destruct (list_find _ _) as [[? exact]|]; [apply selectMatch_frame|].
  destruct (list_find _ _) as [[? fuzzy]|]; [apply selectMatch_frame|].
  apply geocode_frame.
Qed.

(** [handleSearch] writes the selection and commands the map, and nothing
    else: the tab, the query, the draft and applied criteria, the records
    and the boundary data are as before, and it never makes up a map
    handle. *)
Theorem handleSearch_frame st resp :
  activeTab (handleSearch st resp).1 = activeTab st ∧
  searchQuery (handleSearch st resp).1 = searchQuery st ∧
  selectedFilters (handleSearch st resp).1 = selectedFilters st ∧
  inputs (handleSearch st resp).1 = inputs st ∧
  potholes (handleSearch st resp).1 = potholes st ∧
  neighborhoodsFC (handleSearch st resp).1 = neighborhoodsFC st ∧
  (map st = None → map (handleSearch st resp).1 = None).
Proof. apply handleSearch_same. Qed.

Lemma neighborhoodIndex_feature fc i n :
  neighborhoodIndex fc !! i = Some n →
  idx n = i ∧
  ∃ f, features_of fc !! i = Some f ∧
       name n = normalize (featureName ToString f).
Proof.
  unfold Boundary.neighborhoodIndex, features_of.
  destruct fc as [[features|]|]; try done.
  rewrite list_lookup_imap. destruct (features !! i) as [f|]; [|done].
  intros [= <-]. eauto.
Qed.

(** A search that makes no request and has a query has selected exactly
    one boundary of the collection, and the normalized name of that
    boundary contains the normalized query. *)
Theorem search_selects_named_boundary st resp :
  normalize (searchQuery st) ≠ [] →
  (handleSearch st resp).2 = [] →
  ∃ i f pre post,
    selectedNeighborhoodIds (handleSearch st resp).1 = {[ i ]} ∧
    features_of (neighborhoodsFC st) !! i = Some f ∧
    normalize (featureName ToString f)
    = pre ++ normalize (searchQuery st) ++ post.
Proof.
  intros Hq. unfold App.handleSearch. rewrite bool_decide_false by done.
  destruct (list_find (λ n, name n = _) _) as [[j n]|] eqn:Hexact.
  { intros _. apply list_find_Some in Hexact as (Hj & Hn & _).
    apply neighborhoodIndex_feature in Hj as (<- & f & Hf & Hname).
    exists (idx n), f, [], []. cbn [fst].
    rewrite selectMatch_selection, app_nil_r. cbn [app].
    split_and!; [done..|]. by rewrite <-Hname. }
  destruct (list_find (λ n, includes (name n) _ = true) _) as [[j n]|]
    eqn:Hfuzzy.
  { intros _. apply list_find_Some in Hfuzzy as (Hj & Hn & _).
    apply neighborhoodIndex_feature in Hj as (<- & f & Hf & Hname).
    cbn beta in Hn. apply includes_substring in Hn as (pre & post & Hn).
    exists (idx n), f, pre, post. cbn [fst].
    rewrite selectMatch_selection. split_and!; [done..|].
    by rewrite <-Hname. }
  intros He. by apply geocode_events in He.
Qed.

Lemma selectMatch_idemp n st :
  selectMatch n (selectMatch n st) = selectMatch n st.
Proof.
  unfold App.selectMatch.
  destruct (map st) as [v|] eqn:Hm;
    [destruct (features_of (neighborhoodsFC st) !! idx n) as [f|] eqn:Hf;
     [destruct (boundsValid f) eqn:Hb|]|];
    cbn; rewrite ?Hm, ?Hf, ?Hb; done.
Qed.

(** Submitting a search that ended without a request once more (whatever
    the service would answer) changes nothing: a name search selects, it
    does not toggle. *)
Theorem search_again_is_noop st resp resp' :
  (handleSearch st resp).2 = [] →
  handleSearch (handleSearch st resp).1 resp' = ((handleSearch st resp).1, []).
Proof.
  unfold App.handleSearch at 1 3 4.
  case_bool_decide as Hq.
  { intros _. cbn [fst]. unfold App.handleSearch.
    by rewrite bool_decide_true. }
  destruct (list_find (λ n, name n = _) _) as [[j n]|] eqn:Hexact.
  { intros _. cbn [fst]. unfold App.handleSearch.
    destruct (selectMatch_frame n st) as (_ & Hsq & _ & _ & _ & Hfc & _).
    rewrite Hsq, Hfc, bool_decide_false, Hexact by done.
    by rewrite selectMatch_idemp. }
  destruct (list_find (λ n, includes (name n) _ = true) _) as [[j n]|]
    eqn:Hfuzzy.
  { intros _. cbn [fst]. unfold App.handleSearch.
    destruct (selectMatch_frame n st) as (_ & Hsq & _ & _ & _ & Hfc & _).
    rewrite Hsq, Hfc, bool_decide_false, Hexact, Hfuzzy by done.
    by rewrite selectMatch_idemp. }
  intros He. by apply geocode_events in He.
Qed.

(** In every reachable state the records are the generated ones, and the
    draft and applied severity and status sets hold no value twice. *)
Theorem reachable_invariants potholes0 st :
  reachable potholes0 st →
  potholes st = potholes0 ∧
  NoDup (in_severities (inputs st)) ∧ NoDup (in_statuses (inputs st)) ∧
  NoDup (severities (selectedFilters st)) ∧
  NoDup (statuses (selectedFilters st)).
Proof.
  induction 1 as [|a st H (Hp & Hs1 & Hs2 & Hs3 & Hs4)].
  { cbn. split_and!; [done|constructor..]. }
  destruct a; try (cbn; by split_and!).
  - cbn. split_and!; try done. by apply toggleSetValue_NoDup.
  - cbn. split_and!; try done. by apply toggleSetValue_NoDup.
  - cbn. split_and!; [done|constructor..].
  - destruct (handleSearch_same st resp) as (_ & _ & Hf & Hi & Hpp & _).
    cbn [App.step]. rewrite Hf, Hi, Hpp. by split_and!.
Qed.

Variable booleanPointInPolygon : float * float → Feature → bool.
Variable Number : jsstring → float.
Variable startOfDay : Z → JS.Date.
Variable daysBefore : Z → Z → JS.Date.
Variable startOfYear : Z → JS.Date.

Local Abbreviation rendered :=
  (rendered booleanPointInPolygon Number startOfDay daysBefore startOfYear).

(** Until the boundaries have loaded, and with the criteria of the initial
    state, every record is rendered. *)
Theorem all_rendered_without_boundaries st clock :
  neighborhoodsFC st = None →
  selectedFilters st = mkSelected range_all [] [] [] [] →
  rendered st clock = Normal (potholes st).
Proof.
  intros Hfc Hsel. unfold App.rendered, filteredPotholes.
  rewrite Hfc, Hsel, activeNeighborhoods_None. f_equal.
  apply indexed_filter_all. intros [i p].
  apply keep_true; split_and!; try (by left); done.
Qed.

End Handlers.

Lemma search_selects_named_boundary_witness :
  ∃ i f pre post,
    selectedNeighborhoodIds
      (handleSearch_sample
         (step_sample (QueryTyped (str "Market")) typed_postal_code)
         NetworkError).1 = {[ i ]} ∧
    features_of Samples.toronto !! i = Some f ∧
    normalize toLowerCase_ascii nfkd_ascii (featureName ToString_none f)
    = pre ++ str "market" ++ post.
Proof.
  apply (search_selects_named_boundary ToString_none toLowerCase_ascii
           nfkd_ascii boundsValid_all
           (step_sample (QueryTyped (str "Market")) typed_postal_code)
           NetworkError); [by vm_compute|by vm_compute].
Defined.

Lemma search_again_is_noop_witness :
  let st := (handleSearch_sample
               (step_sample (QueryTyped (str "Market")) typed_postal_code)
               NetworkError).1 in
  handleSearch_sample st (Http false None) = (st, []).
Proof.
  apply (search_again_is_noop ToString_none toLowerCase_ascii nfkd_ascii
           boundsValid_all). by vm_compute.
Defined.

Lemma reachable_invariants_witness :
  NoDup (in_severities
           (inputs (step_sample (SeverityToggled high)
                      (step_sample (SeverityToggled critical)
                         (initialState two_potholes))))).
Proof.
  apply (reachable_invariants ToString_none toLowerCase_ascii nfkd_ascii
           boundsValid_all two_potholes).
  do 2 apply reachable_step. apply reachable_init.
Defined.

Lemma all_rendered_without_boundaries_witness :
  rendered west_of_centre Number_sample utc_startOfDay utc_daysBefore
    utc_startOfYear (initialState two_potholes) (clock_at 1700000000000)
  = Normal two_potholes.
Proof.
  apply (all_rendered_without_boundaries west_of_centre Number_sample
           utc_startOfDay utc_daysBefore utc_startOfYear
           (initialState two_potholes)); reflexivity.
Defined.

Section Index.

Variable ToString : JsVal → jsstring.
Variables toLowerCase nfkd : jsstring → jsstring.

Local Abbreviation neighborhoodIndex :=
  (neighborhoodIndex ToString toLowerCase nfkd).

Lemma imap_pair_fst {A} (l : list A) : (imap pair l).*1 = seq 0 (length l).
Proof.
  apply list_eq. intros i.
  rewrite list_lookup_fmap, list_lookup_imap.
  destruct (l !! i) as [x|] eqn:Hx; cbn.
  - symmetry. apply lookup_seq. split; [done|]. by eapply lookup_lt_Some.
  - symmetry. apply lookup_seq_ge. by apply lookup_ge_None.
Qed.

(** The three ways to name a boundary agree: the [__idx] a map click
    carries, the position the filter-tab checkbox uses and the [idx] of the
    search index are all the position of the feature in the collection.
    Without a collection the index is empty and nothing is drawn; data that
    is not a collection has an empty index and breaks the rendering. *)
Theorem boundary_indices_agree fc :
  match fc with
  | Some (FeatureCollection features) =>
      idx <$> neighborhoodIndex fc = seq 0 (length features) ∧
      ∃ tagged, neighborhoodsWithIdx fc = Normal (Some tagged) ∧
                tagged.*1 = seq 0 (length features) ∧
                tagged.*2 = features
  | Some (OtherGeoJSON _) =>
      neighborhoodIndex fc = [] ∧ neighborhoodsWithIdx fc = Throw
  | None => neighborhoodIndex fc = [] ∧ neighborhoodsWithIdx fc = Normal None
  end.
Proof.
  destruct fc as [[features|f]|]; [|done..].
  split.
  - cbn. apply list_eq. intros i.
    rewrite list_lookup_fmap, list_lookup_imap.
    destruct (features !! i) as [x|] eqn:Hx; cbn.
    + symmetry. apply lookup_seq. split; [done|]. by eapply lookup_lt_Some.
    + symmetry. apply lookup_seq_ge. by apply lookup_ge_None.
  - eexists. split; [done|]. split; [apply imap_pair_fst|apply imap_pair_snd].
Qed.

End Index.

End AppMore.
